(** * rnaseq-analysis: the upload and job-lifecycle client of [app.js]

    A shallow embedding of [app.js] (with the constants of [config.js]) and
    the properties of its upload sequence, its job identifiers and its
    GET queries.

    Modelling conventions.
    - JavaScript numbers that hold integers (sizes, indices, counts) are [Z].
      The quotient under [Math.ceil(size / chunkSize)] is computed over the
      rationals [Q], that is with its exact value, which is what the
      double-precision division gives for every size below [2^53].
    - The progress percentages are IEEE-754 doubles: [binary64] values,
      computed by the operations of the source in the order of the source,
      each rounded to nearest with ties to even.
    - The progress callback is an argument of [uploadFiles]: each call is an
      event of the trace, and the call returns or throws.
    - [async]/[await] code runs sequentially: it is written in a small
      monad that threads the trace of observable events and carries thrown
      errors.
    - The outside world (clock, file reader, network) is an [environment]
      asked at the position of the trace at which the call is made, so any
      behaviour of the backend, of the disk and of the clock is an
      environment. *)

From Stdlib Require Import ZArith QArith Qround Qpower List String Ascii Bool.
From Stdlib Require Import Lia Lqa DecimalString SpecFloat.
Import ListNotations.

Set Warnings "-register-all".

Open Scope string_scope.
Open Scope Z_scope.

(* ====================================================================== *)
(** ** JavaScript strings *)
(* ====================================================================== *)

Module JsString.

(** [s.split(c)] for a one-character separator. *)
Fixpoint split (c : ascii) (s : string) : list string :=
  match s with
  | EmptyString => [EmptyString]
  | String a s' =>
      if Ascii.eqb a c then EmptyString :: split c s'
      else match split c s' with
           | [] => [String a EmptyString]
           | h :: t => String a h :: t
           end
  end.

(** [s.replace(/[-:]/g, '')]: every character of the class is dropped. *)
Fixpoint remove_dash_colon (s : string) : string :=
  match s with
  | EmptyString => EmptyString
  | String a s' =>
      if (Ascii.eqb a "-" || Ascii.eqb a ":")%bool then remove_dash_colon s'
      else String a (remove_dash_colon s')
  end.

(** [s.replace(c, d)] with a one-character string pattern: only the first
    occurrence is replaced. *)
Fixpoint replace_first (c d : ascii) (s : string) : string :=
  match s with
  | EmptyString => EmptyString
  | String a s' =>
      if Ascii.eqb a c then String d s' else String a (replace_first c d s')
  end.

(** [s.substring(0, n)]. *)
Definition substring0 (n : nat) (s : string) : string := substring 0 n s.

(** The decimal digit of [n mod 10]. *)
Definition digit (n : Z) : ascii :=
  ascii_of_nat (48 + Z.to_nat (n mod 10)).

(** [String(n).padStart(k, '0')] for [0 <= n < 10^k]: the [k] low decimal
    digits of [n], most significant first. *)
Fixpoint pad (k : nat) (n : Z) : string :=
  match k with
  | O => EmptyString
  | S k' => pad k' (n / 10) ++ String (digit n) EmptyString
  end.

(** Template-literal rendering of an integer-valued number. *)
Definition of_int (n : Z) : string := NilZero.string_of_int (Z.to_int n).

Definition is_digit (a : ascii) : bool :=
  let n := nat_of_ascii a in (Nat.leb 48 n && Nat.leb n 57)%bool.

Fixpoint all_digits (s : string) : bool :=
  match s with
  | EmptyString => true
  | String a s' => (is_digit a && all_digits s')%bool
  end.

End JsString.

(* ====================================================================== *)
(** ** Numbers *)
(* ====================================================================== *)

(** A JavaScript number that is not known to be an integer: an IEEE-754
    double, that is [binary64], with 53 bits of precision and exponents
    below 1024. *)
Definition number : Type := spec_float.

(** The double of an integer, as a literal or an integer-valued variable
    denotes it. *)
Definition num (n : Z) : number := binary_normalize 53 1024 n 0 false.

Module Double.

(** [x + y], [x * y] and [x / y], rounded to nearest, ties to even. *)
Definition add (x y : number) : number := SFadd 53 1024 x y.

Definition mul (x y : number) : number := SFmul 53 1024 x y.

Definition div (x y : number) : number := SFdiv 53 1024 x y.

(** [x <= y] and [x < y]. *)
Definition leb (x y : number) : bool := SFleb x y.

Definition ltb (x y : number) : bool := SFltb x y.

End Double.

(* ====================================================================== *)
(** ** Dates *)
(* ====================================================================== *)

(** A [Date] seen through its UTC fields, which is all that
    [toISOString] reads of it. *)
Record Date := mkDate {
  year : Z; month : Z; day : Z;
  hours : Z; minutes : Z; seconds : Z; milliseconds : Z
}.

(** The field ranges of a date; [year] is the full range of ECMAScript
    time values. *)
Definition valid_date (d : Date) : Prop :=
  -271821 <= year d <= 275760 /\ 1 <= month d <= 12 /\ 1 <= day d <= 31 /\
  0 <= hours d <= 23 /\ 0 <= minutes d <= 59 /\ 0 <= seconds d <= 59 /\
  0 <= milliseconds d <= 999.

(** The years that ISO-8601 writes with four digits. *)
Definition four_digit_year (d : Date) : Prop := 0 <= year d <= 9999.

(** [Date.prototype.toISOString]: [YYYY-MM-DDTHH:mm:ss.sssZ], and the
    expanded form with a sign and six digits for the other years. *)
Definition toISOString (d : Date) : string :=
  let y := year d in
  (if (0 <=? y) && (y <=? 9999) then JsString.pad 4 y
   else (if y <? 0 then "-" else "+") ++ JsString.pad 6 (Z.abs y))
  ++ "-" ++ JsString.pad 2 (month d) ++ "-" ++ JsString.pad 2 (day d)
  ++ "T" ++ JsString.pad 2 (hours d) ++ ":" ++ JsString.pad 2 (minutes d)
  ++ ":" ++ JsString.pad 2 (seconds d) ++ "."
  ++ JsString.pad 3 (milliseconds d) ++ "Z".

(* ====================================================================== *)
(** ** Values exchanged with the backend *)
(* ====================================================================== *)

(** A thrown [Error]; only its [message] is ever read by the client. *)
Record js_error := Error { message : string }.

(** A number of a parsed JSON document, kept as the two observations the
    client can make of it: whether it is zero (its truthiness) and its
    rendering by [String(n)]. *)
Record json_number := mkNumber { is_zero : bool; rendering : string }.

(** A parsed JSON document; an object lists its own properties. *)
Inductive json :=
| JNull
| JBool (b : bool)
| JNum (n : json_number)
| JStr (s : string)
| JArr (items : list json)
| JObj (props : list (string * json)).

(** A value read off a document: [None] is [undefined]. *)
Definition jsval := option json.

Fixpoint assoc (k : string) (props : list (string * json)) : jsval :=
  match props with
  | [] => None
  | (k', v) :: rest => if String.eqb k k' then Some v else assoc k rest
  end.

(** JavaScript truthiness. *)
Definition truthy (v : jsval) : bool :=
  match v with
  | None => false
  | Some JNull => false
  | Some (JBool b) => b
  | Some (JNum n) => negb (is_zero n)
  | Some (JStr s) => negb (String.eqb s EmptyString)
  | Some (JArr _) => true
  | Some (JObj _) => true
  end.

(** [String(v)], as [new Error(v)] applies it to its argument: arrays join
    their items with commas, printing [null] as the empty string, and plain
    objects print as [[object Object]]. *)
Fixpoint ToString (v : json) : string :=
  match v with
  | JNull => "null"
  | JBool true => "true"
  | JBool false => "false"
  | JNum n => rendering n
  | JStr s => s
  | JArr items =>
      (fix join (l : list json) : string :=
         match l with
         | [] => EmptyString
         | x :: rest =>
             (match x with JNull => EmptyString | _ => ToString x end)
             ++ match rest with [] => EmptyString | _ :: _ => "," ++ join rest end
         end) items
  | JObj _ => "[object Object]"
  end.

(** A local file as the client sees it: a name and a size in bytes. *)
Record File := mkFile { name : string; size : Z }.

(** A [Blob]: the bytes [[lo, hi)] of a file. *)
Record Blob := mkBlob { source : File; lo : Z; hi : Z }.

(** A [File] passed where a [Blob] is expected: all of its bytes. *)
Definition whole (f : File) : Blob := mkBlob f 0 (size f).

(** [file.slice(start, end)]: both offsets are clamped to the file, a
    negative one counting from its end, and an empty range results when
    they cross. *)
Definition slice (f : File) (start_ end_ : Z) : Blob :=
  let clamp x := if x <? 0 then Z.max (size f + x) 0 else Z.min x (size f) in
  let s := clamp start_ in
  let e := clamp end_ in
  mkBlob f s (s + Z.max (e - s) 0).

(** The [data] object of a POST body; [JSON.stringify] serialises it
    together with its [action]. *)
Inductive post_data :=
| create_job (job_id user_email timestamp : string) (files : list string)
             (status created_at : string)
| upload_file (job_id file_name : string) (file_data : option string)
              (chunk_index total_chunks : Z)
| mark_ready (job_id : string).

(** The second argument of [fetch]. *)
Record fetch_init := mkInit {
  method : string;
  mode : option string;
  headers : list (string * string);
  body : option post_data
}.

(** What the client can read of a [Response]: [ok], and what
    [response.json()] settles to. *)
Record Response := mkResponse { ok : bool; json_body : js_error + json }.

Inductive fetch_outcome :=
| Resolved (r : Response)
| Rejected (e : js_error).

(** A [FileReader] either loads a data URL or fires [onerror]. *)
Inductive read_outcome :=
| Loaded (data_url : string)
| ReadError.

(** The observable events of a run, in order. *)
Inductive event :=
| EvNow
| EvProgress (percent : number) (msg : string) (file_name : option string)
| EvRead (b : Blob)
| EvFetch (url : string) (init : fetch_init)
| EvConsoleError (label : string) (e : js_error).

Definition trace := list event.
Bind Scope list_scope with trace.

(** The world outside the client.  Each answer may depend on the number of
    events that happened before the call. *)
Record environment := mkEnv {
  clock : nat -> Date;
  disk : nat -> Blob -> read_outcome;
  net : nat -> string -> fetch_init -> fetch_outcome
}.

(* ====================================================================== *)
(** ** Sequential code with exceptions and a trace *)
(* ====================================================================== *)

Inductive completion (A : Type) :=
| Return (a : A)
| Throw (e : js_error).
Arguments Return {A} a.
Arguments Throw {A} e.

Definition M (A : Type) : Type := trace -> completion A * trace.

Definition ret {A} (a : A) : M A := fun tr => (Return a, tr).

Definition throw {A} (e : js_error) : M A := fun tr => (Throw e, tr).

Definition bind {A B} (m : M A) (k : A -> M B) : M B :=
  fun tr =>
    match m tr with
    | (Return a, tr') => k a tr'
    | (Throw e, tr') => (Throw e, tr')
    end.

(** [try { body } catch (error) { handler }]. *)
Definition try_catch {A} (body_ : M A) (handler : js_error -> M A) : M A :=
  fun tr =>
    match body_ tr with
    | (Return a, tr') => (Return a, tr')
    | (Throw e, tr') => handler e tr'
    end.

Declare Scope js_scope.
Delimit Scope js_scope with js.
Notation "x <- m ;; k" := (bind m (fun x => k))
  (at level 61, m at next level, right associativity) : js_scope.
Notation "m ;; k" := (bind m (fun _ => k))
  (at level 61, right associativity) : js_scope.
Open Scope js_scope.

(** [for (let i = start; i < start + n; i++) body(i)], by the number of
    iterations still to run. *)
Fixpoint iterate (n : nat) (i : Z) (body_ : Z -> M unit) : M unit :=
  match n with
  | O => ret tt
  | S n' => body_ i ;; iterate n' (i + 1) body_
  end.

(** [for (let i = 0; i < bound; i++) body(i)]: the loop over integers runs
    [bound] times, and not at all when [bound <= 0]. *)
Definition for_lt (bound : Z) (body_ : Z -> M unit) : M unit :=
  iterate (Z.to_nat bound) 0 body_.

Definition emit (ev : event) : M unit :=
  fun tr => (Return tt, (tr ++ [ev])%list).

Definition console_error (label : string) (e : js_error) : M unit :=
  emit (EvConsoleError label e).

(** The third argument of [uploadFiles]: it is called with a percentage, a
    message and, for a file, its name. *)
Definition callback : Type := number -> string -> option string -> M unit.

(** A callback as the client sees it: the call is an event of the trace,
    and it returns, or throws the [Error] that [outcome] gives for the
    number of events before the call. *)
Definition watched (outcome : nat -> option js_error) : callback :=
  fun percent msg file_name tr =>
    (match outcome (List.length tr) with
     | None => Return tt
     | Some e => Throw e
     end,
     (tr ++ [EvProgress percent msg file_name])%list).

(** A callback that returns from every call. *)
Definition recorder : callback := watched (fun _ => None).

(** An argument that is left out, or is not a function: the client makes
    its calls all the same, and every one of them throws a [TypeError]. *)
Definition not_a_function : callback :=
  watched (fun _ => Some (Error "progressCallback is not a function")).

(* ====================================================================== *)
(** ** config.js *)
(* ====================================================================== *)

Definition APPS_SCRIPT_URL : string :=
  "https://script.google.com/macros/s/AKfycbxfSjbhX4dqAtptYecF-9zpAtKYSswn2cJQT0n28ndeZzwZRsBM0X_gaNH3f3AHmIbu4w/exec".

(* ====================================================================== *)
(** ** app.js *)
(* ====================================================================== *)

Definition Math_ceil (x : Q) : Z := Qceiling x.

Definition Math_min (a b : Z) : Z := Z.min a b.

(** The message of the [TypeError] raised by reading a property of [null]
    or [undefined]. *)
Definition property_of_nothing (what prop : string) : js_error :=
  Error ("Cannot read properties of " ++ what ++ " (reading '" ++ prop ++ "')").

(** [data.prop] on a parsed document: a property of an object, [undefined]
    on the other values, a [TypeError] on [null]. *)
Definition get_property (data : json) (prop : string) : M jsval :=
  match data with
  | JNull => throw (property_of_nothing "null" prop)
  | JObj props => ret (assoc prop props)
  | _ => ret None
  end.

Section Client.

Context (env : environment).

(** [new Date()]. *)
Definition new_Date : M Date :=
  fun tr => (Return (clock env (List.length tr)), (tr ++ [EvNow])%list).

(** [await fetch(url, init)]. *)
Definition fetch (url : string) (init : fetch_init) : M Response :=
  fun tr =>
    match net env (List.length tr) url init with
    | Resolved r => (Return r, (tr ++ [EvFetch url init])%list)
    | Rejected e => (Throw e, (tr ++ [EvFetch url init])%list)
    end.

(** [await response.json()]. *)
Definition response_json (r : Response) : M json :=
  match json_body r with
  | inl e => throw e
  | inr data => ret data
  end.

(** [reader.readAsDataURL(blob)], up to the event the reader fires. *)
Definition readAsDataURL (b : Blob) : M read_outcome :=
  fun tr => (Return (disk env (List.length tr) b), (tr ++ [EvRead b])%list).

Definition generateJobId : M string :=
  now <- new_Date ;;
  let timestamp :=
    JsString.substring0 15
      (JsString.replace_first "T" "_"
         (JsString.remove_dash_colon (toISOString now))) in
  ret ("job_" ++ timestamp).

Definition post_init (d : post_data) : fetch_init :=
  mkInit "POST" (Some "no-cors") [("Content-Type", "application/json")] (Some d).

Definition createJobManifest (jobId email : string) (fileNames : list string)
    : M bool :=
  timestamp <- new_Date ;;
  created_at <- new_Date ;;
  let manifest :=
    create_job jobId email (toISOString timestamp) fileNames "pending"
               (toISOString created_at) in
  response <- fetch APPS_SCRIPT_URL (post_init manifest) ;;
  ret true.

Definition uploadFileChunk (jobId : string) (fileOrChunk : Blob)
    (fileName : string) (chunkIndex totalChunks : Z) : M unit :=
  fired <- readAsDataURL fileOrChunk ;;
  match fired with
  | Loaded result =>
      let base64Data := nth_error (JsString.split "," result) 1 in
      try_catch
        (response <- fetch APPS_SCRIPT_URL
           (post_init
              (upload_file jobId fileName base64Data chunkIndex totalChunks)) ;;
         ret tt)
        (fun error => throw error)
  | ReadError => throw (Error "Failed to read file")
  end.

Definition chunkSize : Z := 10 * 1024 * 1024.

Definition uploadSingleFile (jobId : string) (file : File) : M unit :=
  if size file <=? chunkSize then
    uploadFileChunk jobId (whole file) (name file) 0 1
  else
    let totalChunks :=
      Math_ceil (inject_Z (size file) / inject_Z chunkSize)%Q in
    for_lt totalChunks (fun i =>
      let start_ := i * chunkSize in
      let end_ := Math_min (start_ + chunkSize) (size file) in
      let chunk := slice file start_ end_ in
      uploadFileChunk jobId chunk (name file) i totalChunks).

Definition markJobReady (jobId : string) : M unit :=
  response <- fetch APPS_SCRIPT_URL (post_init (mark_ready jobId)) ;;
  ret tt.

(** The percentage reported for the file of index [i] out of
    [totalFiles]: [const fileProgress = ((i + 1) / totalFiles) * 80], then
    [10 + fileProgress], in doubles.  The index and the count are
    integers, and [i + 1] is at most the length of an array, which a
    double holds exactly. *)
Definition file_percent (i totalFiles : Z) : number :=
  let fileProgress :=
    Double.mul (Double.div (num (i + 1)) (num totalFiles)) (num 80) in
  Double.add (num 10) fileProgress.

Definition uploadFiles (files : list File) (email : string)
    (progressCallback : callback) : M string :=
  jobId <- generateJobId ;;
  progressCallback (num 0) "Creating job..." None ;;
  try_catch
    (let fileNames := map name files in
     createJobManifest jobId email fileNames ;;
     progressCallback (num 10) "Uploading files..." None ;;
     let totalFiles := Z.of_nat (List.length files) in
     for_lt totalFiles (fun i =>
       match nth_error files (Z.to_nat i) with
       | None => throw (property_of_nothing "undefined" "name")
       | Some file =>
           progressCallback (file_percent i totalFiles)
             ("Uploading file " ++ JsString.of_int (i + 1) ++ " of "
                ++ JsString.of_int totalFiles ++ "...")
             (Some (name file)) ;;
           uploadSingleFile jobId file
       end) ;;
     progressCallback (num 95) "Finalizing upload..." None ;;
     markJobReady jobId ;;
     progressCallback (num 100) "Upload complete!" None ;;
     ret jobId)
    (fun error =>
       console_error "Upload error:" error ;;
       throw (Error ("Upload failed: " ++ message error))).

Definition get_init : fetch_init := mkInit "GET" None [] None.

Definition getJobStatus (jobId : string) : M json :=
  try_catch
    (let url := APPS_SCRIPT_URL ++ "?action=get_status&job_id=" ++ jobId in
     response <- fetch url get_init ;;
     if negb (ok response) then throw (Error "Failed to get status")
     else
       data <- response_json response ;;
       data_error <- get_property data "error" ;;
       if truthy data_error then
         throw (Error (match data_error with
                       | Some v => ToString v
                       | None => EmptyString
                       end))
       else ret data)
    (fun error =>
       console_error "Status check error:" error ;;
       throw (Error ("Could not retrieve job status: " ++ message error))).

Definition getJobResults (jobId : string) : M json :=
  try_catch
    (let url := APPS_SCRIPT_URL ++ "?action=get_results&job_id=" ++ jobId in
     response <- fetch url get_init ;;
     if negb (ok response) then throw (Error "Failed to get results")
     else
       data <- response_json response ;;
       data_error <- get_property data "error" ;;
       if truthy data_error then
         throw (Error (match data_error with
                       | Some v => ToString v
                       | None => EmptyString
                       end))
       else ret data)
    (fun error =>
       console_error "Results retrieval error:" error ;;
       throw (Error ("Could not retrieve results: " ++ message error))).

Definition getDownloadUrl (jobId fileId : string) : M jsval :=
  try_catch
    (let url := APPS_SCRIPT_URL ++ "?action=get_download_url&job_id=" ++ jobId
                  ++ "&file_id=" ++ fileId in
     response <- fetch url
       (mkInit "GET" None [("Content-Type", "application/json")] None) ;;
     if negb (ok response) then throw (Error "Failed to get download URL")
     else
       data <- response_json response ;;
       data_error <- get_property data "error" ;;
       if truthy data_error then
         throw (Error (match data_error with
                       | Some v => ToString v
                       | None => EmptyString
                       end))
       else get_property data "url")
    (fun error =>
       console_error "Download URL error:" error ;;
       throw (Error ("Could not get download URL: " ++ message error))).

End Client.

(* ====================================================================== *)
(** ** Specification vocabulary *)
(* ====================================================================== *)

(** *** A program logic for [M]

    [triple P m Q E]: run from a trace satisfying [P], [m] either returns
    [a] leaving a trace that satisfies [Q a], or throws [e] leaving a trace
    that satisfies [E e]. *)
Definition triple {A} (P : trace -> Prop) (m : M A)
    (Q : A -> trace -> Prop) (E : js_error -> trace -> Prop) : Prop :=
  forall tr, P tr ->
    match m tr with
    | (Return a, tr') => Q a tr'
    | (Throw e, tr') => E e tr'
    end.

Definition prefix {A} (l1 l2 : list A) : Prop := exists rest, l2 = (l1 ++ rest)%list.

(** *** Chunks *)

(** The number of chunks of a file: [ceil(S / C)], and one for the file
    that has no byte. *)
Definition chunk_count (f : File) : Z :=
  Z.max 1 (Qceiling (inject_Z (size f) / inject_Z chunkSize)).

(** The bytes [[i·C, min((i+1)·C, S))] of a file. *)
Definition chunk_range (f : File) (i : Z) : Blob :=
  mkBlob f (i * chunkSize) (Z.min ((i + 1) * chunkSize) (size f)).

Definition blob_size (b : Blob) : Z := hi b - lo b.

(** The [file_data] made of what the reader fired. *)
Definition base64Data_of (o : read_outcome) : option string :=
  match o with
  | Loaded result => nth_error (JsString.split "," result) 1
  | ReadError => None
  end.

(** The two events of chunk [i] of [f] when the file is sent from position
    [base] of the trace: the chunk is read, and what the reader loaded is
    posted. *)
Definition chunk_events (env : environment) (jobId : string) (f : File)
    (base : nat) (i : nat) : list event :=
  let b := chunk_range f (Z.of_nat i) in
  [EvRead b;
   EvFetch APPS_SCRIPT_URL
     (post_init
        (upload_file jobId (name f)
           (base64Data_of (disk env (base + 2 * i) b))
           (Z.of_nat i) (chunk_count f)))].

Definition file_events (env : environment) (jobId : string) (f : File)
    (base : nat) : list event :=
  flat_map (chunk_events env jobId f base) (seq 0 (Z.to_nat (chunk_count f))).

Definition is_upload (ev : event) : bool :=
  match ev with
  | EvFetch _ (mkInit _ _ _ (Some (upload_file _ _ _ _ _))) => true
  | _ => false
  end.

Definition count_uploads (tr : trace) : Z :=
  Z.of_nat (List.length (filter is_upload tr)).

(** *** The outline of a run: what is reported and what is sent *)

Inductive step :=
| Reported (percent : number)
| Created (job_id user_email : string) (files : list string)
| Chunk (job_id file_name : string) (chunk_index total_chunks : Z)
| Ready (job_id : string).

Definition step_of (ev : event) : list step :=
  match ev with
  | EvProgress p _ _ => [Reported p]
  | EvFetch _ (mkInit _ _ _ (Some d)) =>
      match d with
      | create_job j e _ fs _ _ => [Created j e fs]
      | upload_file j n _ i t => [Chunk j n i t]
      | mark_ready j => [Ready j]
      end
  | _ => []
  end.

Definition outline (tr : trace) : list step := flat_map step_of tr.

Definition is_request (s : step) : bool :=
  match s with Reported _ => false | _ => true end.

(** The requests of a run, in the order they were sent. *)
Definition sent (tr : trace) : list step := filter is_request (outline tr).

(** The percentages of a run, in the order they were reported. *)
Definition percents (tr : trace) : list number :=
  flat_map (fun s => match s with Reported p => [p] | _ => [] end) (outline tr).

(** A computation that adds the steps [X] to the outline of the trace, or
    a beginning of [X] when it throws. *)
Definition emits {A} (m : M A) (X : list step) : Prop :=
  forall pre,
    triple (fun tr => outline tr = pre) m
      (fun _ tr => outline tr = (pre ++ X)%list)
      (fun _ tr => exists mid, outline tr = (pre ++ mid)%list /\ prefix mid X).

(** The chunks of one file: indices [0 .. chunk_count - 1] in order, each
    with the same [total_chunks]. *)
Definition file_steps (jobId : string) (f : File) : list step :=
  map (fun i => Chunk jobId (name f) (Z.of_nat i) (chunk_count f))
      (seq 0 (Z.to_nat (chunk_count f))).

(** The request sequence of a whole upload. *)
Definition upload_plan (jobId email : string) (files : list File) : list step :=
  (Created jobId email (map name files)
     :: flat_map (file_steps jobId) files ++ [Ready jobId])%list.

(** The percentage of the [k]-th of [N] files, counted from one:
    [10 + (k / N) * 80], in doubles. *)
Definition kth_percent (k N : Z) : number :=
  Double.add (num 10) (Double.mul (Double.div (num k) (num N)) (num 80)).

(** The files from the [k]-th on, each announced by its percentage and
    then sent. *)
Fixpoint files_outline (jobId : string) (N k : Z) (files : list File)
    : list step :=
  match files with
  | [] => []
  | f :: rest =>
      (Reported (kth_percent k N) :: file_steps jobId f
         ++ files_outline jobId N (k + 1) rest)%list
  end.

Definition upload_outline (jobId email : string) (files : list File)
    : list step :=
  ([Reported (num 0); Created jobId email (map name files);
    Reported (num 10)]
   ++ files_outline jobId (Z.of_nat (List.length files)) 1 files
   ++ [Reported (num 95); Ready jobId; Reported (num 100)])%list.

(** The same with each percentage reported once its file has been sent,
    which is how the progress checkpoints read when taken at the word. *)
Fixpoint files_outline_on_completion (jobId : string) (N k : Z)
    (files : list File) : list step :=
  match files with
  | [] => []
  | f :: rest =>
      (file_steps jobId f ++ Reported (kth_percent k N)
         :: files_outline_on_completion jobId N (k + 1) rest)%list
  end.

Definition upload_outline_on_completion (jobId email : string)
    (files : list File) : list step :=
  ([Reported (num 0); Created jobId email (map name files);
    Reported (num 10)]
   ++ files_outline_on_completion jobId (Z.of_nat (List.length files)) 1 files
   ++ [Reported (num 95); Ready jobId; Reported (num 100)])%list.

(** The checkpoints of a whole upload. *)
Definition checkpoints (N : nat) : list number :=
  ([num 0; num 10]
   ++ map (fun k => kth_percent (Z.of_nat k) (Z.of_nat N)) (seq 1 N)
   ++ [num 95; num 100])%list.

Fixpoint nondecreasing (l : list number) : Prop :=
  match l with
  | [] => True
  | x :: rest =>
      match rest with
      | [] => True
      | y :: _ => Double.leb x y = true /\ nondecreasing rest
      end
  end.

(** *** Doubles and the rationals they stand for *)

Definition pow2 (e : Z) : Q := (2 ^ e)%Q.

(** The value of the mantissa [m] at the exponent [e]. *)
Definition val (m e : Z) : Q := (inject_Z m * pow2 e)%Q.

(** [x] lies in the cell [[m, m+1)] of the grid of step [2^e], at the
    place [l]: on the grid point, below the middle, on it or above it. *)
Definition located (x : Q) (m e : Z) (l : location) : Prop :=
  match l with
  | loc_Exact => (x == val m e)%Q
  | loc_Inexact Lt => (val m e < x)%Q /\ (2 * x < val (2 * m + 1) e)%Q
  | loc_Inexact Eq => (2 * x == val (2 * m + 1) e)%Q
  | loc_Inexact Gt => (val (2 * m + 1) e < 2 * x)%Q /\ (x < val (m + 1) e)%Q
  end.

Definition sr_loc (mrs : shr_record) : location := loc_of_shr_record mrs.

(** [m] is a point of the grid of step [2^e] nearest to [x], and the even
    one of the two when [x] is half-way. *)
Definition rne_at (x : Q) (m e : Z) : Prop :=
  (val (2 * m - 1) e <= 2 * x)%Q /\ (2 * x <= val (2 * m + 1) e)%Q /\
  ((2 * x == val (2 * m - 1) e)%Q \/ (2 * x == val (2 * m + 1) e)%Q ->
   Z.even m = true).

(** The double of mantissa [m] at the exponent [e], for [m] of 53 bits or
    the power of two that follows them. *)
Definition pack (m e : Z) : number :=
  if m =? 2 ^ 53 then S754_finite false (Z.to_pos (2 ^ 52)) (e + 1)
  else S754_finite false (Z.to_pos m) e.

(** [f] is the double nearest to the positive [x], ties to even, for [x]
    in the range of the normal doubles: [x] lies in the binade
    [[2^(d-1), 2^d)], whose doubles are spaced by [2^(d-53)]. *)
Definition rounds (x : Q) (f : number) : Prop :=
  exists d m,
    (pow2 (d - 1) <= x)%Q /\ (x < pow2 d)%Q /\ -1021 <= d <= 1023 /\
    rne_at x m (d - 53) /\ f = pack m (d - 53).

(** A positive normal double and its value. *)
Definition canon (f : number) (v : Q) : Prop :=
  exists p e, f = S754_finite false p e /\ Zpos (digits2_pos p) = 53 /\
              -1074 <= e <= 971 /\ (v == val (Zpos p) e)%Q.

(** The doubles [2^-53], [80 * 2^-53] and [10 + 80 * 2^-53], which bound
    from below the three steps of a percentage. *)
Definition tiny : number := S754_finite false (Z.to_pos (2 ^ 52)) (-105).

Definition small : number := S754_finite false (Z.to_pos (5 * 2 ^ 50)) (-99).

Definition above_ten : number :=
  S754_finite false (Z.to_pos (5 * 2 ^ 50 + 5)) (-49).

(** What is computed for the [k]-th of [N] files: each step is the
    rounding of the exact operation on the values of the steps before. *)
Record percent_steps (k N : Z) (vq vm vs : Q) : Prop := {
  quotient_rounds :
    rounds (inject_Z k / inject_Z N) (Double.div (num k) (num N));
  quotient_value : canon (Double.div (num k) (num N)) vq;
  product_rounds :
    rounds (vq * 80) (Double.mul (Double.div (num k) (num N)) (num 80));
  product_value : canon (Double.mul (Double.div (num k) (num N)) (num 80)) vm;
  sum_rounds : rounds (10 + vm) (kth_percent k N);
  sum_value : canon (kth_percent k N) vs;
  sum_above : (10 + 80 * pow2 (-53) <= vs)%Q;
  sum_below : (vs <= 90)%Q
}.

(** *** Failures *)

(** The message of the failure of an event at a position of the trace, if
    the environment made it fail there. *)
Definition failure_at (env : environment) (pos : nat) (ev : event)
    : option string :=
  match ev with
  | EvFetch url init =>
      match net env pos url init with
      | Rejected e => Some (message e)
      | Resolved _ => None
      end
  | EvRead b =>
      match disk env pos b with
      | ReadError => Some "Failed to read file"
      | Loaded _ => None
      end
  | _ => None
  end.

Definition all_succeeded (env : environment) (tr : trace) : Prop :=
  forall n ev, nth_error tr n = Some ev -> failure_at env n ev = None.

(** The trace of a run that stopped at its first failure: everything
    before the last event succeeded, and the last event is the failure
    whose message the thrown error carries. *)
Definition stopped_at_failure (env : environment) (e : js_error) (tr : trace)
    : Prop :=
  exists pre ev,
    tr = (pre ++ [ev])%list /\ all_succeeded env pre /\
    failure_at env (List.length pre) ev = Some (message e).

(** A computation that goes on only while nothing fails. *)
Definition fails_fast {A} (env : environment) (m : M A) : Prop :=
  triple (all_succeeded env) m (fun _ => all_succeeded env)
         (stopped_at_failure env).

(** A computation that goes on only while nothing fails and the callback
    returns: when it throws, either it stopped at a failed request or
    read, or nothing had failed and the callback threw. *)
Definition aborts {A} (env : environment) (m : M A) : Prop :=
  triple (all_succeeded env) m (fun _ => all_succeeded env)
         (fun e tr => stopped_at_failure env e tr \/ all_succeeded env tr).

(** Two environments that differ at most in the responses their resolved
    requests carry. *)
Definition same_up_to_responses (env1 env2 : environment) : Prop :=
  (forall n, clock env1 n = clock env2 n) /\
  (forall n b, disk env1 n b = disk env2 n b) /\
  (forall n url init,
      match net env1 n url init, net env2 n url init with
      | Resolved _, Resolved _ => True
      | Rejected e1, Rejected e2 => e1 = e2
      | _, _ => False
      end).

(** *** Queries *)

Definition rejects {A} (c : completion A) : Prop := exists e, c = Throw e.

Definition transport_failed (o : fetch_outcome) : Prop :=
  exists e, o = Rejected e.

Definition not_ok (o : fetch_outcome) : Prop :=
  exists r, o = Resolved r /\ ok r = false.

Definition unparsable (o : fetch_outcome) : Prop :=
  exists r e, o = Resolved r /\ ok r = true /\ json_body r = inl e.

Definition parsed (o : fetch_outcome) (data : json) : Prop :=
  exists r, o = Resolved r /\ ok r = true /\ json_body r = inr data.

(** [data.error], and [undefined] where [data] has no properties. *)
Definition field (prop : string) (data : json) : jsval :=
  match data with
  | JObj props => assoc prop props
  | _ => None
  end.

Definition has_error_field (data : json) : bool :=
  match field "error" data with Some _ => true | None => false end.

(** The message under a rejected query: of the transport, of the status
    line, of the parser, of the property read on [null], or the backend's
    own. *)
Definition underlying_message (not_ok_msg : string) (o : fetch_outcome)
    : option string :=
  match o with
  | Rejected e => Some (message e)
  | Resolved r =>
      if ok r then
        match json_body r with
        | inl e => Some (message e)
        | inr JNull => Some (message (property_of_nothing "null" "error"))
        | inr data =>
            match field "error" data with
            | Some v => if truthy (Some v) then Some (ToString v) else None
            | None => None
            end
        end
      else Some not_ok_msg
  end.

(** The completion of a query as a function of the outcome of its
    request. *)
Definition query_result {A} (o : fetch_outcome) (phase not_ok_msg : string)
    (project : json -> A) : completion A :=
  match underlying_message not_ok_msg o with
  | Some m => Throw (Error (phase ++ m))
  | None =>
      match o with
      | Resolved (mkResponse _ (inr data)) => Return (project data)
      | _ => Throw (Error phase)
      end
  end.

(** What a query does with the outcome [o] of its request: it rejects
    exactly on a failed transport, a response that is not OK, a body that
    does not parse, a [null] document or a truthy [error]; the message is
    the phase prefix followed by the underlying one; otherwise it returns
    [project] of the parsed document. *)
Definition query_contract {A} (o : fetch_outcome) (c : completion A)
    (phase not_ok_msg : string) (project : json -> A) : Prop :=
  (rejects c <->
     transport_failed o \/ not_ok o \/ unparsable o \/
     exists data, parsed o data /\
       (data = JNull \/ truthy (field "error" data) = true)) /\
  (forall e, c = Throw e ->
     exists m, underlying_message not_ok_msg o = Some m /\
               message e = phase ++ m) /\
  (forall a, c = Return a -> exists data, parsed o data /\ a = project data).

(** The rejection condition with a bare [error] field. *)
Definition rejection_as_claimed (o : fetch_outcome) : Prop :=
  transport_failed o \/ not_ok o \/
  exists data, parsed o data /\ has_error_field data = true.

(** *** Job identifiers *)

(** [YYYYMMDD_HHMMSS]. *)
Definition compact_timestamp (d : Date) : string :=
  JsString.pad 4 (year d) ++ JsString.pad 2 (month d) ++ JsString.pad 2 (day d)
  ++ "_" ++ JsString.pad 2 (hours d) ++ JsString.pad 2 (minutes d)
  ++ JsString.pad 2 (seconds d).

(** Eight digits, an underscore, six digits. *)
Definition is_compact_timestamp (s : string) : bool :=
  (Nat.eqb (String.length s) 15
   && JsString.all_digits (substring 0 8 s)
   && String.eqb (substring 8 1 s) "_"
   && JsString.all_digits (substring 9 6 s))%bool.

(* ====================================================================== *)
(** ** Sample runs *)
(* ====================================================================== *)

Module Sample.

Definition MiB : Z := 1024 * 1024.

Definition date : Date := mkDate 2024 3 7 9 5 42 123.

Definition later : Date := mkDate 2024 3 7 9 5 43 0.

(** What a [no-cors] request resolves to: an opaque response. *)
Definition opaque : Response := mkResponse false (inl (Error "opaque")).

Definition data_url : string := "data:application/octet-stream;base64,QUJD".

(** A world in which nothing fails. *)
Definition calm : environment :=
  mkEnv (fun _ => date) (fun _ _ => Loaded data_url) (fun _ _ _ => Resolved opaque).

(** The same world with a backend that answers every POST with a readable
    error document. *)
Definition complaining : environment :=
  mkEnv (fun _ => date) (fun _ _ => Loaded data_url)
        (fun _ _ _ =>
           Resolved (mkResponse false (inr (JObj [("error", JStr "quota")])))).

(** The same calm world one second later. *)
Definition calm_later : environment :=
  mkEnv (fun _ => later) (fun _ _ => Loaded data_url)
        (fun _ _ _ => Resolved opaque).

(** A world whose network is down at the fourteenth event. *)
Definition flaky : environment :=
  mkEnv (fun _ => date) (fun _ _ => Loaded data_url)
        (fun n _ _ => if Nat.eqb n 13 then Rejected (Error "Failed to fetch")
                      else Resolved opaque).

(** A backend that answers every query with the document [data]. *)
Definition answering (data : json) : environment :=
  mkEnv (fun _ => date) (fun _ _ => ReadError)
        (fun _ _ _ => Resolved (mkResponse true (inr data))).

Definition three_files : list File :=
  [mkFile "a.fq.gz" MiB; mkFile "b.fq.gz" (25 * MiB); mkFile "c.fq.gz" MiB].

Definition big : File := mkFile "b.fq.gz" (25 * MiB).

Definition empty_file : File := mkFile "empty.fq.gz" 0.

Definition email : string := "user@example.org".

Definition job : string := "job_20240307_090542".

(** A document whose [error] is the empty string. *)
Definition quiet_error : json := JObj [("error", JStr EmptyString)].

(** A document that reports an error. *)
Definition loud_error : json := JObj [("error", JStr "Job not found")].

End Sample.

(* ====================================================================== *)
(** ** The rest of config.js and app.js *)
(* ====================================================================== *)

(** The [CONFIG] object of config.js. *)
Module CONFIG.

Definition MAX_FILE_SIZE : Z := 5 * 1024 * 1024 * 1024.

Definition MAX_FILES_PER_JOB : Z := 20.

Definition UPLOAD_CHUNK_SIZE : Z := 10 * 1024 * 1024.

Definition STATUS_REFRESH_INTERVAL : Z := 10000.

Definition ALLOWED_EXTENSIONS : list string := [".fq.gz"; ".fastq.gz"].

End CONFIG.

Module JsText.

(** [c.toLowerCase()] on one character, the characters of the model being
    the code units below 256: the letters [A] to [Z] move to [a] to [z],
    the accented capitals of Latin-1 (192 to 222, the sign 215 apart) to
    their small letters, and every other character stays. *)
Definition lower (a : ascii) : ascii :=
  let n := nat_of_ascii a in
  if ((Nat.leb 65 n && Nat.leb n 90)
      || (Nat.leb 192 n && Nat.leb n 222 && negb (Nat.eqb n 215)))%bool
  then ascii_of_nat (n + 32) else a.

(** [s.toLowerCase()]. *)
Fixpoint toLowerCase (s : string) : string :=
  match s with
  | EmptyString => EmptyString
  | String a s' => String (lower a) (toLowerCase s')
  end.

(** [s.endsWith(suffix)]. *)
Definition endsWith (s suffix : string) : bool :=
  let n := String.length s in
  let m := String.length suffix in
  (Nat.leb m n && String.eqb (substring (n - m) m s) suffix)%bool.

(** Whether the character [c] occurs in [s]. *)
Fixpoint occurs (c : ascii) (s : string) : bool :=
  match s with
  | EmptyString => false
  | String a s' => (Ascii.eqb a c || occurs c s')%bool
  end.

End JsText.

(** [isValidFastqFile(file)]. *)
Definition isValidFastqFile (file : File) : bool :=
  let validExtensions := [".fq.gz"; ".fastq.gz"] in
  existsb (fun ext => JsText.endsWith (JsText.toLowerCase (name file)) ext)
          validExtensions.

(* ====================================================================== *)
(** ** More specification vocabulary *)
(* ====================================================================== *)

(** The blobs read during a run, in order. *)
Definition reads (tr : trace) : list Blob :=
  flat_map (fun ev => match ev with EvRead b => [b] | _ => [] end) tr.

(** The blobs [bs] lie end to end from offset [a] to offset [b]. *)
Fixpoint tiles (a : Z) (bs : list Blob) (b : Z) : Prop :=
  match bs with
  | [] => a = b
  | x :: rest => lo x = a /\ tiles (hi x) rest b
  end.

Definition is_console (ev : event) : bool :=
  match ev with EvConsoleError _ _ => true | _ => false end.

(** What a request of the upload looks like: a POST of a JSON body to the
    endpoint, in [no-cors] mode. *)
Definition is_upload_post (url : string) (init : fetch_init) : Prop :=
  url = APPS_SCRIPT_URL /\ method init = "POST" /\
  mode init = Some "no-cors" /\
  headers init = [("Content-Type", "application/json")] /\
  body init <> None.

(** Two dates within the same second. *)
Definition same_second (d1 d2 : Date) : Prop :=
  year d1 = year d2 /\ month d1 = month d2 /\ day d1 = day d2 /\
  hours d1 = hours d2 /\ minutes d1 = minutes d2 /\ seconds d1 = seconds d2.

(** The number of chunks of all the files of a job. *)
Definition total_chunks_of (files : list File) : Z :=
  fold_right (fun f acc => chunk_count f + acc) 0 files.

(** The files of a job respect the limits of [CONFIG]. *)
Definition within_limits (files : list File) : Prop :=
  Z.of_nat (List.length files) <= CONFIG.MAX_FILES_PER_JOB /\
  Forall (fun f => 0 <= size f <= CONFIG.MAX_FILE_SIZE) files.

Module MoreSamples.

(** A world whose reader loads a data URL without any comma. *)
Definition bare : environment :=
  mkEnv (fun _ => Sample.date) (fun _ _ => Loaded "data:")
        (fun _ _ _ => Resolved Sample.opaque).

(** The calm world with a clock that shows another millisecond. *)
Definition calm_same_second : environment :=
  mkEnv (fun _ => mkDate 2024 3 7 9 5 42 987)
        (fun _ _ => Loaded Sample.data_url)
        (fun _ _ _ => Resolved Sample.opaque).

(** A document without [url] and without [error]. *)
Definition no_url : json := JObj [("id", JStr "f1")].


End MoreSamples.

(* ====================================================================== *)
(** * Proofs *)
(* ====================================================================== *)
(* ====================================================================== *)
(** ** Rounding to doubles *)
(* ====================================================================== *)

(** The operations on doubles are those of [SpecFloat].  This part shows
    that, on positive values in the range of the normal doubles, each of
    them returns the rounding of the exact result, and that rounding keeps
    the order. *)

(** *** Powers of two and points of a grid *)


Lemma pow2_pos e : (0 < pow2 e)%Q.
Proof. apply Qpower_0_lt. reflexivity. Qed.

Lemma pow2_add a b : (pow2 (a + b) == pow2 a * pow2 b)%Q.
Proof. apply Qpower_plus. discriminate. Qed.

Lemma pow2_succ e : (pow2 (e + 1) == 2 * pow2 e)%Q.
Proof. rewrite pow2_add. unfold pow2 at 2. simpl. ring. Qed.

Lemma pow2_lt a b : a < b -> (pow2 a < pow2 b)%Q.
Proof. intros H. apply Qpower_lt_compat_l; [exact H | reflexivity]. Qed.

Lemma pow2_le a b : a <= b -> (pow2 a <= pow2 b)%Q.
Proof. intros H. apply Qpower_le_compat_l; [exact H | discriminate]. Qed.

Lemma pow2_lt_inv a b : (pow2 a < pow2 b)%Q -> a < b.
Proof.
  intros H. destruct (Z_lt_le_dec a b) as [Hlt|Hge]; [exact Hlt|].
  apply pow2_le in Hge. lra.
Qed.

Lemma pow2_Z e : 0 <= e -> (pow2 e == inject_Z (2 ^ e))%Q.
Proof.
  intros H. unfold pow2. rewrite Zpower_Qpower by exact H. reflexivity.
Qed.

(** A positive number of [d] binary digits lies in [[2^(d-1), 2^d)]. *)
Lemma digits2_pos_spec (m : positive) :
  2 ^ (Zpos (digits2_pos m) - 1) <= Zpos m < 2 ^ (Zpos (digits2_pos m)).
Proof.
  induction m as [m IH|m IH|]; cbn [digits2_pos].
  - rewrite Pos2Z.inj_succ.
    replace (Z.succ (Zpos (digits2_pos m)) - 1)
      with (Zpos (digits2_pos m) - 1 + 1) by lia.
    rewrite Z.pow_succ_r by lia. rewrite Z.pow_add_r by lia.
    change (2 ^ 1) with 2. lia.
  - rewrite Pos2Z.inj_succ.
    replace (Z.succ (Zpos (digits2_pos m)) - 1)
      with (Zpos (digits2_pos m) - 1 + 1) by lia.
    rewrite Z.pow_succ_r by lia. rewrite Z.pow_add_r by lia.
    change (2 ^ 1) with 2. lia.
  - cbn. lia.
Qed.

Lemma val_add a b e : (val (a + b) e == val a e + val b e)%Q.
Proof. unfold val. rewrite inject_Z_plus. ring. Qed.

Lemma val_mul k a e : (val (k * a) e == inject_Z k * val a e)%Q.
Proof. unfold val. rewrite inject_Z_mult. ring. Qed.

Lemma val_1 e : (val 1 e == pow2 e)%Q.
Proof. unfold val. ring. Qed.

Lemma val_succ_exp m e : (val m (e + 1) == val (2 * m) e)%Q.
Proof. unfold val. rewrite pow2_succ, inject_Z_mult. ring. Qed.

Lemma val_lt a b e : a < b -> (val a e < val b e)%Q.
Proof.
  intros H. unfold val. apply Qmult_lt_compat_r; [apply pow2_pos|].
  now rewrite <- Zlt_Qlt.
Qed.

Lemma val_le a b e : a <= b -> (val a e <= val b e)%Q.
Proof.
  intros H. unfold val. apply Qmult_le_compat_r.
  - now rewrite <- Zle_Qle.
  - apply Qlt_le_weak, pow2_pos.
Qed.

Lemma val_lt_inv a b e : (val a e < val b e)%Q -> a < b.
Proof.
  intros H. destruct (Z_lt_le_dec a b) as [Hlt|Hge]; [exact Hlt|].
  apply (val_le _ _ e) in Hge. lra.
Qed.

Lemma val_le_inv a b e : (val a e <= val b e)%Q -> a <= b.
Proof.
  intros H. destruct (Z_le_gt_dec a b) as [Hle|Hgt]; [exact Hle|].
  apply Z.gt_lt, (val_lt _ _ e) in Hgt. lra.
Qed.

Lemma val_eq_inv a b e : (val a e == val b e)%Q -> a = b.
Proof.
  intros H. apply Z.le_antisymm; apply (val_le_inv _ _ e); lra.
Qed.

(** *** Locations through the shifts of the rounding *)

(** What a location says, whatever it is. *)
Lemma located_cell x m e l :
  located x m e l ->
  (val m e <= x)%Q /\ (x < val (m + 1) e)%Q /\
  (l = loc_Exact -> (x == val m e)%Q) /\
  (l <> loc_Exact -> (val m e < x)%Q).
Proof.
  pose proof (pow2_pos e) as Hu.
  pose proof (val_add m 1 e) as H1. rewrite val_1 in H1.
  pose proof (val_add (2 * m) 1 e) as H2. rewrite val_1, val_mul in H2.
  change (inject_Z 2) with 2%Q in H2.
  destruct l as [|[| |]]; cbn [located]; intros H.
  - repeat split; try lra. intros Hne. now contradiction Hne.
  - repeat split; try lra; discriminate.
  - repeat split; try lra; discriminate.
  - repeat split; try lra; discriminate.
Qed.

(** One shift to the right keeps the location of [x]. *)
Lemma shr_1_located x mrs e :
  0 <= shr_m mrs ->
  located x (shr_m mrs) e (sr_loc mrs) ->
  0 <= shr_m (shr_1 mrs) /\
  located x (shr_m (shr_1 mrs)) (e + 1) (sr_loc (shr_1 mrs)).
Proof.
  destruct mrs as [m r s]. cbn [shr_m]. intros Hm Hloc.
  apply located_cell in Hloc as (Hlo & Hhi & Hex & Hin).
  pose proof (pow2_pos e) as Hu.
  assert (Hinexact : orb r s = true -> (val m e < x)%Q).
  { intros Hrs. apply Hin. unfold sr_loc. destruct r, s; try discriminate. }
  assert (Hexact : orb r s = false -> (x == val m e)%Q).
  { intros Hrs. apply Hex. destruct r, s; try discriminate. reflexivity. }
  assert (Hcases : forall (q : Z) (b : bool),
            m = 2 * q + (if b then 1 else 0) -> 0 <= q ->
            0 <= q /\
            located x q (e + 1)
              (sr_loc (Build_shr_record q b (orb r s)))).
  { intros q b Hq Hq0. split; [exact Hq0|].
    pose proof (val_add (2 * q) 1 e) as E1. rewrite val_1, val_mul in E1.
    pose proof (val_add (2 * q + 1) 1 e) as E2. rewrite val_1 in E2.
    change (inject_Z 2) with 2%Q in *.
    pose proof (val_add m 1 e) as E3. rewrite val_1 in E3.
    unfold sr_loc. cbn [loc_of_shr_record].
    destruct b, (orb r s) eqn:Hrs; cbn [located];
      try specialize (Hinexact eq_refl); try specialize (Hexact eq_refl);
      subst m; clear E1 E2 E3 Hex Hin;
      unfold val in *; rewrite ?pow2_succ;
      rewrite ?inject_Z_plus, ?inject_Z_mult in *;
      change (inject_Z 2) with 2%Q in *; change (inject_Z 1) with 1%Q in *;
      change (inject_Z 0) with 0%Q in *;
      set (w := (inject_Z q * pow2 e)%Q) in *;
      try (split; nra); nra. }
  destruct m as [|[p|p|]|p]; cbn [shr_1 shr_m].
  - apply (Hcases 0 false); lia.
  - apply (Hcases (Zpos p) true); lia.
  - apply (Hcases (Zpos p) false); lia.
  - apply (Hcases 0 true); lia.
  - lia.
Qed.

Ltac qval :=
  unfold val in *; rewrite ?pow2_succ in *; unfold Z.sub in *;
  repeat (progress
            (rewrite ?inject_Z_plus, ?inject_Z_mult, ?inject_Z_opp in *));
  change (inject_Z 2) with 2%Q in *; change (inject_Z 1) with 1%Q in *;
  change (inject_Z 0) with 0%Q in *.

Lemma iter_shr_located (p : positive) : forall x mrs e,
  0 <= shr_m mrs ->
  located x (shr_m mrs) e (sr_loc mrs) ->
  0 <= shr_m (iter_pos shr_1 p mrs) /\
  located x (shr_m (iter_pos shr_1 p mrs)) (e + Zpos p)
          (sr_loc (iter_pos shr_1 p mrs)).
Proof.
  induction p as [p IH|p IH|]; intros x mrs e Hm Hloc; cbn [iter_pos].
  - destruct (shr_1_located x mrs e Hm Hloc) as [H1 L1].
    destruct (IH x _ _ H1 L1) as [H2 L2].
    destruct (IH x _ _ H2 L2) as [H3 L3].
    split; [exact H3|].
    replace (e + Zpos p~1) with (e + 1 + Zpos p + Zpos p) by lia. exact L3.
  - destruct (IH x _ _ Hm Hloc) as [H2 L2].
    destruct (IH x _ _ H2 L2) as [H3 L3].
    split; [exact H3|].
    replace (e + Zpos p~0) with (e + Zpos p + Zpos p) by lia. exact L3.
  - apply shr_1_located; assumption.
Qed.

Lemma sr_loc_of_loc m l : sr_loc (shr_record_of_loc m l) = l.
Proof. destruct l as [|[| |]]; reflexivity. Qed.

Lemma shr_m_of_loc m l : shr_m (shr_record_of_loc m l) = m.
Proof. destruct l as [|[| |]]; reflexivity. Qed.

(** The mantissa is brought to the exponent of the format, with the
    location of [x] kept. *)
Lemma shr_fexp_located x m e l :
  0 <= m -> located x m e l ->
  let '(mrs, e') := shr_fexp 53 1024 m e l in
  e' = Z.max e (fexp 53 1024 (Zdigits2 m + e)) /\
  0 <= shr_m mrs /\ located x (shr_m mrs) e' (sr_loc mrs).
Proof.
  intros Hm Hloc. unfold shr_fexp, shr.
  assert (H0 : 0 <= shr_m (shr_record_of_loc m l)) by now rewrite shr_m_of_loc.
  assert (L0 : located x (shr_m (shr_record_of_loc m l)) e
                 (sr_loc (shr_record_of_loc m l)))
    by now rewrite shr_m_of_loc, sr_loc_of_loc.
  destruct (fexp 53 1024 (Zdigits2 m + e) - e) as [|n|n] eqn:Hn.
  - split; [lia|]. split; assumption.
  - destruct (iter_shr_located n x _ e H0 L0) as [H1 L1].
    split; [lia|]. split; [exact H1|].
    replace (e + Zpos n) with (e + Zpos n) by lia. exact L1.
  - split; [lia|]. split; assumption.
Qed.

(** The choice made from a location is a nearest point, the even one at a
    tie. *)
Lemma round_nearest_even_at x m e l :
  located x m e l -> rne_at x (round_nearest_even m l) e.
Proof.
  pose proof (pow2_pos e) as Hu.
  unfold rne_at.
  destruct l as [|[| |]]; cbn [located round_nearest_even]; intros H.
  - split; [|split]; try (qval; nra);
      try (intros [E|E]; exfalso; qval; nra).
  - destruct (Z.even m) eqn:Hev.
    + split; [|split]; try (qval; nra). intros _. exact Hev.
    + split; [|split]; try (qval; nra). intros _.
      rewrite Z.even_add, Hev. reflexivity.
  - destruct H as [H1 H2]. split; [|split]; try (qval; nra);
      try (intros [E|E]; exfalso; qval; nra).
  - destruct H as [H1 H2]. split; [|split]; try (qval; nra);
      try (intros [E|E]; exfalso; qval; nra).
Qed.

(** *** Rounding a located value *)

Lemma val_pow2 k e : 0 <= k -> (val (2 ^ k) e == pow2 (k + e))%Q.
Proof.
  intros H. unfold val. rewrite pow2_add, <- pow2_Z by exact H. reflexivity.
Qed.

Lemma digits2_pos_unique (p : positive) (k : Z) :
  2 ^ (k - 1) <= Zpos p < 2 ^ k -> Zpos (digits2_pos p) = k.
Proof.
  intros [Hlo Hhi]. pose proof (digits2_pos_spec p) as [Dlo Dhi].
  assert (0 < k).
  { destruct (Z_lt_le_dec 0 k) as [H|H]; [exact H|].
    assert (2 ^ k <= 2 ^ 0) by (apply Z.pow_le_mono_r; lia).
    change (2 ^ 0) with 1 in *. lia. }
  destruct (Z.lt_trichotomy (Zpos (digits2_pos p)) k) as [H1|[H1|H1]];
    [|exact H1|].
  - assert (2 ^ Zpos (digits2_pos p) <= 2 ^ (k - 1))
      by (apply Z.pow_le_mono_r; lia). lia.
  - assert (2 ^ k <= 2 ^ (Zpos (digits2_pos p) - 1))
      by (apply Z.pow_le_mono_r; lia). lia.
Qed.

(** The mantissa of a rounding in the binade [d] has 53 digits, or is the
    next power of two. *)
Lemma rne_at_bounds x m d :
  (pow2 (d - 1) <= x)%Q -> (x < pow2 d)%Q -> rne_at x m (d - 53) ->
  2 ^ 52 <= m <= 2 ^ 53.
Proof.
  intros Hlo Hhi (H1 & H2 & _).
  pose proof (val_pow2 52 (d - 53) ltac:(lia)) as E52.
  replace (52 + (d - 53)) with (d - 1) in E52 by lia.
  pose proof (val_pow2 53 (d - 53) ltac:(lia)) as E53.
  replace (53 + (d - 53)) with d in E53 by lia.
  split.
  - assert (H : (val (2 * 2 ^ 52) (d - 53) <= val (2 * m + 1) (d - 53))%Q).
    { rewrite val_mul. change (inject_Z 2) with 2%Q. lra. }
    apply val_le_inv in H. lia.
  - assert (H : (val (2 * m - 1) (d - 53) < val (2 * 2 ^ 53) (d - 53))%Q).
    { rewrite (val_mul 2 (2 ^ 53)). change (inject_Z 2) with 2%Q. lra. }
    apply val_lt_inv in H. lia.
Qed.

(** [binary_round_aux] returns the rounding of the value located by its
    arguments, when the mantissa has the 53 bits at least. *)
Theorem round_aux_rounds x mx ex lx :
  0 < mx -> located x mx ex lx ->
  ex <= Zdigits2 mx + ex - 53 ->
  (pow2 (-1021) <= x)%Q -> (x < pow2 1023)%Q ->
  rounds x (binary_round_aux 53 1024 false mx ex lx).
Proof.
  intros Hmx Hloc Hex Xlo Xhi.
  assert (Hbin0 : (pow2 (Zdigits2 mx + ex - 1) <= x)%Q /\
                  (x < pow2 (Zdigits2 mx + ex))%Q).
  { destruct mx as [|p|p]; try lia. cbn [Zdigits2].
    pose proof (digits2_pos_spec p) as [Dlo Dhi].
    pose proof (located_cell _ _ _ _ Hloc) as (Hlo & Hhi & _).
    pose proof (val_pow2 (Zpos (digits2_pos p) - 1) ex ltac:(lia)) as E1.
    pose proof (val_pow2 (Zpos (digits2_pos p)) ex ltac:(lia)) as E2.
    replace (Zpos (digits2_pos p) - 1 + ex)
      with (Zpos (digits2_pos p) + ex - 1) in E1 by lia.
    pose proof (val_le _ _ ex Dlo).
    assert (Zpos p + 1 <= 2 ^ Zpos (digits2_pos p)) as Hs by lia.
    apply (val_le _ _ ex) in Hs. split; lra. }
  assert (Hd : -1021 <= Zdigits2 mx + ex <= 1023).
  { destruct Hbin0 as [B1 B2]. split.
    - assert (pow2 (-1021) < pow2 (Zdigits2 mx + ex))%Q as H by lra.
      apply pow2_lt_inv in H. lia.
    - assert (pow2 (Zdigits2 mx + ex - 1) < pow2 1023)%Q as H by lra.
      apply pow2_lt_inv in H. lia. }
  set (d := Zdigits2 mx + ex) in *.
  assert (Hfexp : fexp 53 1024 d = d - 53).
  { unfold fexp, emin. lia. }
  assert (Hbin : (pow2 (d - 1) <= x)%Q /\ (x < pow2 d)%Q) by exact Hbin0.
  destruct Hbin as [Hlo Hhi].
  unfold binary_round_aux.
  pose proof (shr_fexp_located x mx ex lx ltac:(lia) Hloc) as H1.
  destruct (shr_fexp 53 1024 mx ex lx) as [mrs1 e1].
  destruct H1 as (He1 & Hm1 & L1).
  fold d in He1. rewrite Hfexp in He1.
  assert (e1 = d - 53) as -> by lia.
  apply round_nearest_even_at in L1.
  set (m2 := round_nearest_even (shr_m mrs1) (loc_of_shr_record mrs1)) in *.
  fold (sr_loc mrs1) in m2.
  pose proof (rne_at_bounds x m2 d Hlo Hhi L1) as [B1 B2].
  exists d, m2. split; [exact Hlo|]. split; [exact Hhi|]. split; [exact Hd|].
  split; [exact L1|].
  unfold pack. destruct (m2 =? 2 ^ 53) eqn:Htop.
  - apply Z.eqb_eq in Htop. rewrite Htop.
    unfold shr_fexp, shr, fexp, emin.
    replace (Z.max (Zdigits2 (2 ^ 53) + (d - 53) - 53) (3 - 1024 - 53)
             - (d - 53))
      with 1 by (change (Zdigits2 (2 ^ 53)) with 54; lia).
    cbn [shr_record_of_loc iter_pos].
    change (shr_m (shr_1 {| shr_m := 2 ^ 53; shr_r := false; shr_s := false |}))
      with (2 ^ 52).
    change (2 ^ 52) with (Zpos (Z.to_pos (2 ^ 52))) at 1.
    cbv iota beta.
    replace (d - 53 + 1 <=? 1024 - 53) with true
      by (symmetry; apply Z.leb_le; lia).
    reflexivity.
  - apply Z.eqb_neq in Htop.
    destruct m2 as [|p|p] eqn:Hm2; try lia.
    unfold shr_fexp, shr, fexp, emin.
    assert (Hdig : Zdigits2 (Zpos p) = 53).
    { cbn [Zdigits2]. apply digits2_pos_unique. change (53 - 1) with 52. lia. }
    rewrite Hdig.
    replace (Z.max (53 + (d - 53) - 53) (3 - 1024 - 53) - (d - 53))
      with 0 by lia.
    cbn [shr_record_of_loc shr_m].
    replace (d - 53 <=? 1024 - 53) with true by (symmetry; apply Z.leb_le; lia).
    rewrite Pos2Z.id. reflexivity.
Qed.

(** *** Rounding keeps the order *)

(** Order of positive finite floats. *)
Lemma SFleb_finite (m1 m2 : positive) (e1 e2 : Z) :
  SFleb (S754_finite false m1 e1) (S754_finite false m2 e2) = true <->
  e1 < e2 \/ (e1 = e2 /\ (m1 <= m2)%positive).
Proof.
  unfold SFleb, SFcompare.
  destruct (Z.compare_spec e1 e2) as [He|He|He].
  - change (Pos.compare_cont Eq m1 m2) with (Pos.compare m1 m2).
    destruct (Pos.compare_spec m1 m2) as [Hm|Hm|Hm]; split; intros H;
      try discriminate; try (right; split; [exact He|]; lia);
      try reflexivity.
    destruct H as [H|[_ H]]; lia.
  - split; [intros _; left; exact He | reflexivity].
  - split; [discriminate|]. intros [H|[H _]]; lia.
Qed.

Lemma rne_at_mono x y m1 m2 e :
  rne_at x m1 e -> rne_at y m2 e -> (x <= y)%Q -> m1 <= m2.
Proof.
  intros (A1 & A2 & A3) (B1 & B2 & B3) Hxy.
  destruct (Z_le_gt_dec m1 m2) as [H|H]; [exact H|]. exfalso.
  assert (Hm : 2 * m2 + 1 <= 2 * m1 - 1) by lia.
  apply (val_le _ _ e) in Hm.
  assert (E1 : (2 * x == val (2 * m1 - 1) e)%Q) by lra.
  assert (E2 : (2 * y == val (2 * m2 + 1) e)%Q) by lra.
  assert (E3 : (val (2 * m2 + 1) e == val (2 * m1 - 1) e)%Q) by lra.
  apply val_eq_inv in E3.
  specialize (A3 (or_introl E1)). specialize (B3 (or_intror E2)).
  assert (m1 = m2 + 1) as -> by lia.
  rewrite Z.even_add in A3. rewrite B3 in A3. discriminate A3.
Qed.

Lemma pack_finite m e :
  2 ^ 52 <= m <= 2 ^ 53 ->
  exists p e', pack m e = S754_finite false p e' /\
               Zpos (digits2_pos p) = 53 /\
               (val (Zpos p) e' == val m e)%Q /\
               ((m < 2 ^ 53 /\ Zpos p = m /\ e' = e) \/
                (m = 2 ^ 53 /\ Zpos p = 2 ^ 52 /\ e' = e + 1)).
Proof.
  intros [Hlo Hhi]. unfold pack. destruct (m =? 2 ^ 53) eqn:Htop.
  - apply Z.eqb_eq in Htop. subst m.
    exists (Z.to_pos (2 ^ 52)), (e + 1). split; [reflexivity|].
    split; [reflexivity|]. split.
    + rewrite val_succ_exp. reflexivity.
    + right. repeat split.
  - apply Z.eqb_neq in Htop. destruct m as [|p|p]; try lia.
    exists p, e. split; [reflexivity|]. split.
    + apply digits2_pos_unique. change (53 - 1) with 52. lia.
    + split; [reflexivity|]. left. repeat split. lia.
Qed.

(** Rounding is monotone. *)
Theorem rounds_mono x y f g :
  rounds x f -> rounds y g -> (x <= y)%Q -> SFleb f g = true.
Proof.
  intros (d1 & m1 & Xlo & Xhi & Xd & Xr & ->)
         (d2 & m2 & Ylo & Yhi & Yd & Yr & ->) Hxy.
  pose proof (rne_at_bounds _ _ _ Xlo Xhi Xr) as B1.
  pose proof (rne_at_bounds _ _ _ Ylo Yhi Yr) as B2.
  assert (Hd : d1 <= d2).
  { assert (pow2 (d1 - 1) < pow2 d2)%Q as H by lra.
    apply pow2_lt_inv in H. lia. }
  destruct (pack_finite m1 (d1 - 53) B1) as (p1 & e1 & -> & _ & _ & C1).
  destruct (pack_finite m2 (d2 - 53) B2) as (p2 & e2 & -> & _ & _ & C2).
  apply SFleb_finite.
  destruct (Z.eq_dec d1 d2) as [->|Hne].
  - pose proof (rne_at_mono _ _ _ _ _ Xr Yr Hxy) as Hm.
    destruct C1 as [(? & ? & ?)|(? & ? & ?)], C2 as [(? & ? & ?)|(? & ? & ?)];
      subst; lia.
  - destruct C1 as [(? & ? & ?)|(? & ? & ?)], C2 as [(? & ? & ?)|(? & ? & ?)];
      subst; lia.
Qed.

(** *** Doubles and their values *)

Lemma binade_unique x d1 d2 :
  (pow2 (d1 - 1) <= x)%Q -> (x < pow2 d1)%Q ->
  (pow2 (d2 - 1) <= x)%Q -> (x < pow2 d2)%Q -> d1 = d2.
Proof.
  intros A1 A2 B1 B2.
  assert (pow2 (d1 - 1) < pow2 d2)%Q as H1 by lra.
  assert (pow2 (d2 - 1) < pow2 d1)%Q as H2 by lra.
  apply pow2_lt_inv in H1, H2. lia.
Qed.

Lemma canon_binade p e :
  Zpos (digits2_pos p) = 53 ->
  (pow2 (53 + e - 1) <= val (Zpos p) e)%Q /\ (val (Zpos p) e < pow2 (53 + e))%Q.
Proof.
  intros Hd. pose proof (digits2_pos_spec p) as [Dlo Dhi]. rewrite Hd in *.
  pose proof (val_pow2 52 e ltac:(lia)) as E1.
  pose proof (val_pow2 53 e ltac:(lia)) as E2.
  replace (53 + e - 1) with (52 + e) by lia.
  change (53 - 1) with 52 in Dlo.
  apply (val_le _ _ e) in Dlo. apply (val_lt _ _ e) in Dhi. split; lra.
Qed.

Lemma rne_at_exact k m e : rne_at (val k e) m e -> m = k.
Proof.
  intros (H1 & H2 & _).
  assert (E : (2 * val k e == val (2 * k) e)%Q)
    by (rewrite val_mul; reflexivity).
  rewrite E in H1, H2. apply val_le_inv in H1, H2. lia.
Qed.

Lemma rne_at_of_exact k e : rne_at (val k e) k e.
Proof.
  pose proof (pow2_pos e) as Hp.
  assert (A : (val (2 * k - 1) e < 2 * val k e)%Q) by (qval; nra).
  assert (B : (2 * val k e < val (2 * k + 1) e)%Q) by (qval; nra).
  split; [lra|]. split; [lra|]. intros [E|E]; exfalso; lra.
Qed.

Lemma rne_at_ext x y m e : (x == y)%Q -> rne_at x m e -> rne_at y m e.
Proof.
  intros E (H1 & H2 & H3). split; [lra|]. split; [lra|].
  intros [H|H]; apply H3; [left|right]; lra.
Qed.

Lemma rounds_ext x y f : (x == y)%Q -> rounds x f -> rounds y f.
Proof.
  intros E (d & m & Xlo & Xhi & Xd & Xr & ->).
  exists d, m. split; [lra|]. split; [lra|]. split; [exact Xd|].
  split; [exact (rne_at_ext _ _ _ _ E Xr) | reflexivity].
Qed.

Lemma canon_ext f v w : (v == w)%Q -> canon f v -> canon f w.
Proof.
  intros E (p & e & -> & Hd & He & Hv).
  exists p, e. split; [reflexivity|]. split; [exact Hd|]. split; [exact He|].
  lra.
Qed.

(** A value that is itself a double rounds to that double. *)
Lemma rounds_exact f v : canon f v -> (v < pow2 1023)%Q -> rounds v f.
Proof.
  intros (p & e & -> & Hd & He & Hv) Hmax.
  destruct (canon_binade p e Hd) as [B1 B2].
  assert (Hmax' : e <= 970).
  { assert (pow2 (53 + e - 1) < pow2 1023)%Q as H by lra.
    apply pow2_lt_inv in H. lia. }
  apply (rounds_ext (val (Zpos p) e)); [lra|].
  exists (53 + e), (Zpos p).
  split; [exact B1|]. split; [exact B2|]. split; [lia|].
  replace (53 + e - 53) with e by lia. split; [apply rne_at_of_exact|].
  unfold pack. pose proof (digits2_pos_spec p) as [_ Dhi]. rewrite Hd in Dhi.
  destruct (Zpos p =? 2 ^ 53) eqn:E; [apply Z.eqb_eq in E; lia|].
  reflexivity.
Qed.

Lemma rounds_canon x f : rounds x f -> exists v, canon f v.
Proof.
  intros (d & m & Xlo & Xhi & Xd & Xr & ->).
  pose proof (rne_at_bounds _ _ _ Xlo Xhi Xr) as B.
  destruct (pack_finite m (d - 53) B) as (p & e & -> & Hd & Hv & C).
  exists (val (Zpos p) e), p, e. split; [reflexivity|]. split; [exact Hd|].
  split; [|reflexivity].
  destruct C as [(? & ? & ?)|(? & ? & ?)]; subst; lia.
Qed.

Lemma canon_value_unique f v w : canon f v -> canon f w -> (v == w)%Q.
Proof.
  intros (p & e & -> & _ & _ & Hv) (p' & e' & [= <- <-] & _ & _ & Hw).
  now rewrite Hv, Hw.
Qed.

(** The order of doubles is the order of their values. *)
Lemma canon_le f g v w :
  canon f v -> canon g w -> SFleb f g = true -> (v <= w)%Q.
Proof.
  intros (p1 & e1 & -> & D1 & _ & ->) (p2 & e2 & -> & D2 & _ & ->) H.
  apply SFleb_finite in H.
  destruct (canon_binade p1 e1 D1) as [A1 A2].
  destruct (canon_binade p2 e2 D2) as [B1 B2].
  destruct H as [H|[-> H]].
  - assert (pow2 (53 + e1) <= pow2 (53 + e2 - 1))%Q by (apply pow2_le; lia).
    lra.
  - apply val_le. lia.
Qed.

Lemma canon_lt f g v w :
  canon f v -> canon g w -> (v < w)%Q -> SFltb f g = true.
Proof.
  intros (p1 & e1 & -> & D1 & _ & ->) (p2 & e2 & -> & D2 & _ & ->) H.
  destruct (canon_binade p1 e1 D1) as [A1 A2].
  destruct (canon_binade p2 e2 D2) as [B1 B2].
  unfold SFltb, SFcompare.
  destruct (Z.compare_spec e1 e2) as [He|He|He].
  - subst e2. apply val_lt_inv in H.
    change (Pos.compare_cont Eq p1 p2) with (Pos.compare p1 p2).
    destruct (Pos.compare_spec p1 p2); try reflexivity; lia.
  - reflexivity.
  - assert (pow2 (53 + e2) <= pow2 (53 + e1 - 1))%Q by (apply pow2_le; lia).
    lra.
Qed.

(** The value of a rounding lies between the doubles that bound what is
    rounded. *)
Lemma rounds_between x f lo hi vlo vhi :
  rounds x f -> rounds vlo lo -> rounds vhi hi ->
  canon lo vlo -> canon hi vhi ->
  (vlo <= x)%Q -> (x <= vhi)%Q ->
  exists v, canon f v /\ (vlo <= v)%Q /\ (v <= vhi)%Q.
Proof.
  intros Hf Hlo Hhi Clo Chi H1 H2.
  destruct (rounds_canon x f Hf) as [v Cv].
  exists v. split; [exact Cv|]. split.
  - apply (canon_le lo f); try assumption.
    apply (rounds_mono vlo x); assumption.
  - apply (canon_le f hi); try assumption.
    apply (rounds_mono x vhi); assumption.
Qed.

(** *** The operations *)

Lemma val_shift m k e : 0 <= k -> (val (m * 2 ^ k) (e - k) == val m e)%Q.
Proof.
  intros Hk. unfold val. rewrite inject_Z_mult, <- pow2_Z by exact Hk.
  rewrite <- Qmult_assoc, <- pow2_add.
  replace (k + (e - k)) with e by lia. reflexivity.
Qed.

Lemma val_times a b e1 e2 :
  (val a e1 * val b e2 == val (a * b) (e1 + e2))%Q.
Proof. unfold val. rewrite inject_Z_mult, pow2_add. ring. Qed.

Lemma iter_xO_value (k p : positive) :
  Zpos (Pos.iter xO p k) = Zpos p * 2 ^ Zpos k.
Proof.
  change (Pos.iter xO p k) with (shift_pos k p).
  rewrite shift_pos_correct, Z.pow_pos_fold. lia.
Qed.

Lemma digits_lower (p : positive) (k : Z) :
  2 ^ k <= Zpos p -> k < Zpos (digits2_pos p).
Proof.
  intros H. pose proof (digits2_pos_spec p) as [_ Hhi].
  destruct (Z_lt_le_dec k (Zpos (digits2_pos p))) as [L|L]; [exact L|].
  assert (2 ^ Zpos (digits2_pos p) <= 2 ^ k) by (apply Z.pow_le_mono_r; lia).
  lia.
Qed.

(** [binary_round] rounds the value it is given. *)
Lemma binary_round_rounds (p : positive) (e : Z) :
  (pow2 (-1021) <= val (Zpos p) e)%Q -> (val (Zpos p) e < pow2 1023)%Q ->
  rounds (val (Zpos p) e) (binary_round 53 1024 false p e).
Proof.
  intros Hlo Hhi. unfold binary_round, shl_align.
  pose proof (digits2_pos_spec p) as [Dlo Dhi].
  set (d := Zpos (digits2_pos p)) in *.
  assert (Hd : -1021 < d + e).
  { pose proof (val_pow2 d e ltac:(lia)) as E.
    apply (val_lt _ _ e) in Dhi.
    assert (pow2 (-1021) < pow2 (d + e))%Q as H by lra.
    apply pow2_lt_inv in H. exact H. }
  assert (Hf : fexp 53 1024 (d + e) = d + e - 53) by (unfold fexp, emin; lia).
  rewrite Hf.
  destruct (d + e - 53 - e) as [|k|k] eqn:Hk.
  - apply round_aux_rounds; try assumption; try lia.
    + reflexivity.
    + cbn [Zdigits2]. fold d. lia.
  - apply round_aux_rounds; try assumption; try lia.
    + reflexivity.
    + cbn [Zdigits2]. fold d. lia.
  - assert (E : (val (Zpos (Pos.iter xO p k)) (d + e - 53)
                 == val (Zpos p) e)%Q).
    { rewrite iter_xO_value.
      replace (d + e - 53) with (e - Zpos k) by lia.
      apply val_shift. lia. }
    apply (rounds_ext (val (Zpos (Pos.iter xO p k)) (d + e - 53))); [exact E|].
    apply round_aux_rounds; try lia.
    + reflexivity.
    + cbn [Zdigits2].
      assert (52 < Zpos (digits2_pos (Pos.iter xO p k))); [|lia].
      apply digits_lower. rewrite iter_xO_value.
      replace 52 with ((d - 1) + Zpos k) by lia.
      rewrite Z.pow_add_r by lia. nia.
    + lra.
    + lra.
Qed.

(** A rounded value that lies on the grid of its binade is not changed. *)
Lemma rounds_grid x f k e :
  rounds x f -> (x == val k e)%Q -> (x < pow2 (e + 53))%Q -> canon f x.
Proof.
  intros (d & m & Xlo & Xhi & Xd & Xr & ->) Hx Hk.
  assert (Hde : d <= e + 53).
  { assert (pow2 (d - 1) < pow2 (e + 53))%Q as H by lra.
    apply pow2_lt_inv in H. lia. }
  set (j := e - (d - 53)).
  assert (Hx' : (x == val (k * 2 ^ j) (d - 53))%Q).
  { rewrite Hx. replace (d - 53) with (e - j) by (unfold j; lia).
    symmetry. apply val_shift. unfold j. lia. }
  pose proof (rne_at_ext _ _ _ _ Hx' Xr) as Xr'.
  apply rne_at_exact in Xr'.
  pose proof (rne_at_bounds _ _ _ Xlo Xhi Xr) as [B1 B2].
  assert (Hm : m < 2 ^ 53).
  { pose proof (val_pow2 53 (d - 53) ltac:(lia)) as E.
    replace (53 + (d - 53)) with d in E by lia.
    assert (val m (d - 53) < val (2 ^ 53) (d - 53))%Q as H
      by (rewrite Xr', <- Hx'; lra).
    apply val_lt_inv in H. exact H. }
  destruct (pack_finite m (d - 53) (conj B1 B2)) as (p & e' & -> & Hd & Hv & C).
  exists p, e'. split; [reflexivity|]. split; [exact Hd|].
  destruct C as [(_ & Hp & ->)|(? & _)]; [|lia].
  split; [lia|]. rewrite Hp, Xr'. exact Hx'.
Qed.

Lemma val_0 n : (val n 0 == inject_Z n)%Q.
Proof. unfold val, pow2. cbn. ring. Qed.

(** An integer that a double holds exactly. *)
Lemma num_rounds n : 1 <= n < 2 ^ 53 ->
  rounds (inject_Z n) (num n) /\ canon (num n) (inject_Z n).
Proof.
  intros [Hlo Hhi]. destruct n as [|p|p]; try lia.
  assert (R : rounds (inject_Z (Zpos p)) (num (Zpos p))).
  { apply (rounds_ext (val (Zpos p) 0)); [apply val_0|].
    unfold num, binary_normalize. apply binary_round_rounds.
    - rewrite val_0. assert (pow2 (-1021) <= pow2 0)%Q by (apply pow2_le; lia).
      change (pow2 0) with 1%Q in *. rewrite Zle_Qle in Hlo.
      change (inject_Z 1) with 1%Q in Hlo. lra.
    - rewrite val_0. assert (pow2 53 <= pow2 1023)%Q by (apply pow2_le; lia).
      rewrite pow2_Z in H by lia. rewrite Zlt_Qlt in Hhi. lra. }
  split; [exact R|].
  apply (rounds_grid _ _ (Zpos p) 0 R).
  - symmetry. apply val_0.
  - change (0 + 53) with 53. rewrite pow2_Z by lia. now rewrite <- Zlt_Qlt.
Qed.

(** The product of two doubles is the rounding of the product of their
    values. *)
Lemma mul_rounds f g v w :
  canon f v -> canon g w ->
  (pow2 (-1021) <= v * w)%Q -> (v * w < pow2 1023)%Q ->
  rounds (v * w) (Double.mul f g).
Proof.
  intros (p1 & e1 & -> & D1 & _ & Hv) (p2 & e2 & -> & D2 & _ & Hw) Hlo Hhi.
  unfold Double.mul, SFmul. cbn [xorb].
  assert (E : (v * w == val (Zpos (p1 * p2)) (e1 + e2))%Q).
  { rewrite Hv, Hw, val_times. reflexivity. }
  apply (rounds_ext (val (Zpos (p1 * p2)) (e1 + e2))); [symmetry; exact E|].
  apply round_aux_rounds; try lia; try lra.
  - exact (Qeq_refl _).
  - cbn [Zdigits2].
    assert (104 < Zpos (digits2_pos (p1 * p2))); [|lia].
    apply digits_lower.
    pose proof (digits2_pos_spec p1) as [A1 _]. rewrite D1 in A1.
    pose proof (digits2_pos_spec p2) as [A2 _]. rewrite D2 in A2.
    change (53 - 1) with 52 in *. change (2 ^ 104) with (2 ^ 52 * 2 ^ 52).
    rewrite Pos2Z.inj_mul. nia.
Qed.

(** Where the quotient of two integers lies between the multiples of the
    unit. *)
Lemma located_quotient x a b q r e :
  0 < b -> a = b * q + r -> 0 <= r < b ->
  (x * inject_Z b == val a e)%Q ->
  located x q e (new_location b r).
Proof.
  intros Hb Ha Hr Hx.
  pose proof (pow2_pos e) as Hp.
  assert (HB : (0 < inject_Z b)%Q) by (rewrite (Zlt_Qlt 0) in Hb; exact Hb).
  assert (Hx' : (x * inject_Z b ==
                 val q e * inject_Z b + inject_Z r * pow2 e)%Q).
  { rewrite Hx, Ha. unfold val. rewrite inject_Z_plus, inject_Z_mult. ring. }
  assert (Cmp : forall c c',
             (inject_Z c * pow2 e < inject_Z c' * pow2 e)%Q <-> c < c').
  { intros c c'. rewrite Qmult_lt_r by exact Hp. now rewrite <- Zlt_Qlt. }
  assert (Lo : 0 < r -> (val q e < x)%Q).
  { intros H0. apply (Qmult_lt_r _ _ _ HB). rewrite Hx'.
    assert (0 < inject_Z r * pow2 e)%Q; [|lra].
    apply Qmult_lt_0_compat; [|exact Hp]. now rewrite <- (Zlt_Qlt 0). }
  assert (Hi : (x < val (q + 1) e)%Q).
  { apply (Qmult_lt_r _ _ _ HB). rewrite Hx', val_add, val_1.
    assert (inject_Z r * pow2 e < inject_Z b * pow2 e)%Q by (apply Cmp; lia).
    lra. }
  assert (Half : forall c : comparison,
            (2 * r ?= b) = c ->
            match c with
            | Lt => (2 * x < val (2 * q + 1) e)%Q
            | Eq => (2 * x == val (2 * q + 1) e)%Q
            | Gt => (val (2 * q + 1) e < 2 * x)%Q
            end).
  { intros c Hc.
    assert (E1 : (val (2 * q + 1) e * inject_Z b ==
                  2 * (val q e * inject_Z b) + inject_Z b * pow2 e)%Q).
    { rewrite val_add, val_mul, val_1. change (inject_Z 2) with 2%Q. ring. }
    assert (E2 : (2 * x * inject_Z b ==
                  2 * (val q e * inject_Z b) + inject_Z (2 * r) * pow2 e)%Q).
    { rewrite inject_Z_mult. change (inject_Z 2) with 2%Q.
      rewrite <- Qmult_assoc, Hx'. ring. }
    destruct c.
    - apply Z.compare_eq in Hc.
      apply (Qmult_inj_r _ _ (inject_Z b)); [lra|]. rewrite E1, E2, Hc.
      reflexivity.
    - rewrite Z.compare_lt_iff in Hc. apply Cmp in Hc.
      apply (Qmult_lt_r _ _ _ HB). rewrite E1, E2. lra.
    - rewrite Z.compare_gt_iff in Hc. apply Cmp in Hc.
      apply (Qmult_lt_r _ _ _ HB). rewrite E1, E2. lra. }
  unfold new_location.
  destruct (Z.even b) eqn:Heven.
  - unfold new_location_even.
    destruct (r =? 0) eqn:Hr0.
    + apply Z.eqb_eq in Hr0. subst r. cbn [located].
      apply (Qmult_inj_r _ _ (inject_Z b)); [lra|]. rewrite Hx'.
      change (inject_Z 0) with 0%Q. ring.
    + apply Z.eqb_neq in Hr0.
      specialize (Half (2 * r ?= b) eq_refl).
      destruct (2 * r ?= b); cbn [located].
      * exact Half.
      * split; [apply Lo; lia | exact Half].
      * split; [exact Half | exact Hi].
  - unfold new_location_odd.
    destruct (r =? 0) eqn:Hr0.
    + apply Z.eqb_eq in Hr0. subst r. cbn [located].
      apply (Qmult_inj_r _ _ (inject_Z b)); [lra|]. rewrite Hx'.
      change (inject_Z 0) with 0%Q. ring.
    + apply Z.eqb_neq in Hr0.
      assert (Hodd : Z.odd b = true)
        by (rewrite <- Z.negb_even, Heven; reflexivity).
      apply Z.odd_spec in Hodd. destruct Hodd as [h Hh].
      destruct (2 * r + 1 ?= b) eqn:Hc; cbn [located].
      * apply Z.compare_eq in Hc.
        split; [apply Lo; lia|]. apply (Half Lt). apply Z.compare_lt_iff. lia.
      * rewrite Z.compare_lt_iff in Hc.
        split; [apply Lo; lia|]. apply (Half Lt). apply Z.compare_lt_iff. lia.
      * rewrite Z.compare_gt_iff in Hc.
        split; [|exact Hi]. apply (Half Gt). apply Z.compare_gt_iff. lia.
Qed.

Lemma val_pos m e : 0 < m -> (0 < val m e)%Q.
Proof.
  intros H. unfold val. apply Qmult_lt_0_compat; [|apply pow2_pos].
  now rewrite <- (Zlt_Qlt 0).
Qed.

(** The quotient of two doubles is the rounding of the quotient of their
    values. *)
Lemma div_rounds f g v w :
  canon f v -> canon g w ->
  (pow2 (-1021) <= v / w)%Q -> (v / w < pow2 1023)%Q ->
  rounds (v / w) (Double.div f g).
Proof.
  intros (p1 & e1 & -> & D1 & _ & Hv) (p2 & e2 & -> & D2 & _ & Hw) Hlo Hhi.
  pose proof (digits2_pos_spec p1) as [A1 A1']. rewrite D1 in A1, A1'.
  pose proof (digits2_pos_spec p2) as [A2 A2']. rewrite D2 in A2, A2'.
  change (53 - 1) with 52 in *.
  pose proof (val_pos (Zpos p2) e2 ltac:(lia)) as Wpos. rewrite <- Hw in Wpos.
  assert (Hquot : (v / w * inject_Z (Zpos p2)
                   == val (Zpos p1 * 2 ^ 53) (e1 - e2 - 53))%Q).
  { rewrite val_shift by lia.
    assert (E : (val (Zpos p1) (e1 - e2) * pow2 e2 == val (Zpos p1) e1)%Q).
    { unfold val. rewrite <- Qmult_assoc, <- pow2_add.
      replace (e1 - e2 + e2) with e1 by lia. reflexivity. }
    pose proof (pow2_pos e2) as P2.
    apply (Qmult_inj_r _ _ (pow2 e2)); [lra|].
    rewrite E, <- Hv, <- Qmult_assoc.
    change (inject_Z (Zpos p2) * pow2 e2)%Q with (val (Zpos p2) e2).
    rewrite <- Hw. field. lra. }
  assert (He : -1021 <= e1 - e2).
  { assert (H : (v / w < pow2 (e1 - e2 + 1))%Q).
    { apply (Qmult_lt_r _ _ (inject_Z (Zpos p2))).
      - now rewrite <- (Zlt_Qlt 0).
      - rewrite Hquot, val_shift by lia.
        unfold val. rewrite pow2_succ.
        pose proof (pow2_pos (e1 - e2)) as P.
        assert (L1 : (inject_Z (Zpos p1) < inject_Z (2 ^ 53))%Q)
          by (now rewrite <- Zlt_Qlt).
        assert (L2 : (inject_Z (2 ^ 52) <= inject_Z (Zpos p2))%Q)
          by (now rewrite <- Zle_Qle).
        change (inject_Z (2 ^ 53)) with (2 * inject_Z (2 ^ 52))%Q in L1.
        assert (0 < inject_Z (2 ^ 52))%Q by reflexivity.
        nra. }
    assert (pow2 (-1021) < pow2 (e1 - e2 + 1))%Q as H' by lra.
    apply pow2_lt_inv in H'. lia. }
  unfold Double.div, SFdiv, SFdiv_core_binary. cbn [xorb Zdigits2].
  rewrite D1, D2.
  replace (53 + e1 - (53 + e2)) with (e1 - e2) by lia.
  assert (Hf : Z.min (fexp 53 1024 (e1 - e2)) (e1 - e2) = e1 - e2 - 53)
    by (unfold fexp, emin; lia).
  rewrite Hf.
  replace (e1 - e2 - (e1 - e2 - 53)) with 53 by lia.
  rewrite Z.shiftl_mul_pow2 by lia.
  pose proof (Z_div_mod (Zpos p1 * 2 ^ 53) (Zpos p2) ltac:(lia)) as Hdiv.
  destruct (Z.div_eucl (Zpos p1 * 2 ^ 53) (Zpos p2)) as [q r].
  destruct Hdiv as [Hqr Hr].
  assert (Hq : 2 ^ 52 <= q) by nia.
  apply round_aux_rounds; try lia; try lra.
  - apply (located_quotient _ (Zpos p1 * 2 ^ 53) (Zpos p2)); try lia.
    exact Hquot.
  - destruct q as [|pq|pq]; try lia. cbn [Zdigits2].
    assert (52 < Zpos (digits2_pos pq)); [|lia]. apply digits_lower. exact Hq.
Qed.

(** The sum of two doubles is the rounding of the sum of their values. *)
Lemma add_rounds f g v w :
  canon f v -> canon g w ->
  (pow2 (-1021) <= v + w)%Q -> (v + w < pow2 1023)%Q ->
  rounds (v + w) (Double.add f g).
Proof.
  intros (p1 & e1 & -> & D1 & _ & Hv) (p2 & e2 & -> & D2 & _ & Hw) Hlo Hhi.
  unfold Double.add, SFadd. cbn [cond_Zopp].
  set (ez := Z.min e1 e2).
  assert (Al : forall p e, ez <= e ->
             (val (Zpos (fst (shl_align p e ez))) ez == val (Zpos p) e)%Q).
  { intros p e He. unfold shl_align.
    destruct (ez - e) as [|k|k] eqn:Hk; cbn [fst].
    - replace ez with e by lia. reflexivity.
    - lia.
    - rewrite iter_xO_value. replace ez with (e - Zpos k) by lia.
      apply val_shift. lia. }
  pose proof (Al p1 e1 ltac:(unfold ez; lia)) as E1.
  pose proof (Al p2 e2 ltac:(unfold ez; lia)) as E2.
  set (a := fst (shl_align p1 e1 ez)) in *.
  set (b := fst (shl_align p2 e2 ez)) in *.
  change (Zpos a + Zpos b) with (Zpos (a + b)).
  unfold binary_normalize.
  assert (E : (val (Zpos (a + b)) ez == v + w)%Q).
  { rewrite Pos2Z.inj_add, val_add, E1, E2, Hv, Hw. reflexivity. }
  apply (rounds_ext (val (Zpos (a + b)) ez)); [exact E|].
  apply binary_round_rounds; lra.
Qed.

(** *** The percentages *)

Lemma canon_leb f g v w :
  canon f v -> canon g w -> (v <= w)%Q -> SFleb f g = true.
Proof.
  intros (p1 & e1 & -> & D1 & _ & Hv) (p2 & e2 & -> & D2 & _ & Hw) H.
  rewrite Hv, Hw in H.
  destruct (canon_binade p1 e1 D1) as [A1 A2].
  destruct (canon_binade p2 e2 D2) as [B1 B2].
  apply SFleb_finite.
  destruct (Z.lt_trichotomy e1 e2) as [He|[He|He]].
  - left. exact He.
  - right. subst e2. split; [reflexivity|]. apply val_le_inv in H. lia.
  - exfalso.
    assert (pow2 (53 + e2) <= pow2 (53 + e1 - 1))%Q by (apply pow2_le; lia).
    lra.
Qed.

Lemma canon_tiny : canon tiny (pow2 (-53)).
Proof.
  exists (Z.to_pos (2 ^ 52)), (-105). split; [reflexivity|].
  split; [reflexivity|]. split; [lia|].
  rewrite (val_pow2 52 (-105)) by lia. reflexivity.
Qed.

Lemma canon_small : canon small (80 * pow2 (-53)).
Proof.
  exists (Z.to_pos (5 * 2 ^ 50)), (-99). split; [reflexivity|].
  split; [reflexivity|]. split; [lia|]. vm_compute. reflexivity.
Qed.

Lemma canon_above_ten : canon above_ten (10 + 80 * pow2 (-53)).
Proof.
  exists (Z.to_pos (5 * 2 ^ 50 + 5)), (-49). split; [reflexivity|].
  split; [reflexivity|]. split; [lia|]. vm_compute. reflexivity.
Qed.

Lemma pow2_1023_big : (inject_Z (2 ^ 53) < pow2 1023)%Q.
Proof.
  rewrite <- pow2_Z by lia. apply pow2_lt. lia.
Qed.

Lemma pow2_m1021_small : (pow2 (-1021) < pow2 (-53))%Q.
Proof. apply pow2_lt. lia. Qed.

Lemma pow2_m53 : (pow2 (-53) * inject_Z (2 ^ 53) == 1)%Q.
Proof. rewrite <- pow2_Z, <- pow2_add by lia. reflexivity. Qed.

(** The three steps of a percentage stay in the range of the normal
    doubles, so each is the rounding of its exact result. *)
Lemma kth_percent_steps k N :
  1 <= k <= N -> N < 2 ^ 53 -> exists vq vm vs, percent_steps k N vq vm vs.
Proof.
  intros Hk HN.
  destruct (num_rounds k ltac:(lia)) as [_ Ck].
  destruct (num_rounds N ltac:(lia)) as [_ CN].
  destruct (num_rounds 1 ltac:(lia)) as [R1 C1].
  destruct (num_rounds 10 ltac:(lia)) as [R10 C10].
  destruct (num_rounds 80 ltac:(lia)) as [R80 C80].
  destruct (num_rounds 90 ltac:(lia)) as [R90 C90].
  pose proof pow2_1023_big as Big. pose proof pow2_m1021_small as Small.
  pose proof pow2_m53 as P53. pose proof (pow2_pos (-53)) as Ppos.
  assert (Big' : (100 < pow2 1023)%Q).
  { assert (100 < inject_Z (2 ^ 53))%Q by reflexivity. lra. }
  assert (K1 : (1 <= inject_Z k)%Q) by (rewrite (Zle_Qle 1) in Hk; tauto).
  assert (KN : (inject_Z k <= inject_Z N)%Q) by (rewrite <- Zle_Qle; lia).
  assert (N53 : (inject_Z N < inject_Z (2 ^ 53))%Q) by (now rewrite <- Zlt_Qlt).
  assert (Npos : (0 < inject_Z N)%Q) by lra.
  (* the quotient *)
  assert (Qhi : (inject_Z k / inject_Z N <= 1)%Q).
  { apply Qle_shift_div_r; [exact Npos | lra]. }
  assert (Qlo : (pow2 (-53) <= inject_Z k / inject_Z N)%Q).
  { apply Qle_shift_div_l; [exact Npos|]. nra. }
  assert (Rq : rounds (inject_Z k / inject_Z N) (Double.div (num k) (num N))).
  { apply div_rounds; try assumption; lra. }
  destruct (rounds_between _ _ tiny (num 1) (pow2 (-53)) 1 Rq)
    as (vq & Cq & Vq1 & Vq2); try assumption; try lra.
  { apply rounds_exact; [exact canon_tiny | lra]. }
  { exact canon_tiny. }
  (* the product *)
  assert (Rm : rounds (vq * 80)
                 (Double.mul (Double.div (num k) (num N)) (num 80))).
  { apply mul_rounds; try assumption; lra. }
  destruct (rounds_between _ _ small (num 80) (80 * pow2 (-53)) 80 Rm)
    as (vm & Cm & Vm1 & Vm2); try assumption; try lra.
  { apply rounds_exact; [exact canon_small | lra]. }
  { exact canon_small. }
  (* the sum *)
  assert (Rs : rounds (10 + vm) (kth_percent k N)).
  { apply add_rounds; try assumption; lra. }
  destruct (rounds_between _ _ above_ten (num 90) (10 + 80 * pow2 (-53)) 90 Rs)
    as (vs & Cs & Vs1 & Vs2); try assumption; try lra.
  { apply rounds_exact; [exact canon_above_ten | lra]. }
  { exact canon_above_ten. }
  exists vq, vm, vs. constructor; assumption.
Qed.

(** The percentage of a file lies above 10 and does not exceed 90. *)
Theorem kth_percent_range k N :
  1 <= k <= N -> N < 2 ^ 53 ->
  Double.ltb (num 10) (kth_percent k N) = true /\
  Double.leb (kth_percent k N) (num 90) = true.
Proof.
  intros Hk HN. destruct (kth_percent_steps k N Hk HN) as (vq & vm & vs & S).
  destruct (num_rounds 10 ltac:(lia)) as [_ C10].
  destruct (num_rounds 90 ltac:(lia)) as [_ C90].
  pose proof (pow2_pos (-53)) as Ppos.
  destruct S as [_ _ _ _ _ Cs Above Below]. split.
  - apply (canon_lt _ _ 10 vs); try assumption. lra.
  - apply (canon_leb _ _ vs 90); assumption.
Qed.

(** The percentages of the files go up with their index. *)
Theorem kth_percent_mono k1 k2 N :
  1 <= k1 <= k2 -> k2 <= N -> N < 2 ^ 53 ->
  Double.leb (kth_percent k1 N) (kth_percent k2 N) = true.
Proof.
  intros Hk Hk2 HN.
  destruct (kth_percent_steps k1 N ltac:(lia) HN) as (vq1 & vm1 & vs1 & S1).
  destruct (kth_percent_steps k2 N ltac:(lia) HN) as (vq2 & vm2 & vs2 & S2).
  destruct S1 as [Rq1 Cq1 Rm1 Cm1 Rs1 _ _ _].
  destruct S2 as [Rq2 Cq2 Rm2 Cm2 Rs2 _ _ _].
  assert (Npos : (0 < inject_Z N)%Q)
    by (change (inject_Z 0 < inject_Z N)%Q; rewrite <- Zlt_Qlt; lia).
  apply (rounds_mono (10 + vm1) (10 + vm2)); try assumption.
  assert (vm1 <= vm2)%Q; [|lra].
  apply (canon_le _ _ _ _ Cm1 Cm2).
  apply (rounds_mono (vq1 * 80) (vq2 * 80)); try assumption.
  assert (vq1 <= vq2)%Q; [|lra].
  apply (canon_le _ _ _ _ Cq1 Cq2).
  apply (rounds_mono _ _ _ _ Rq1 Rq2).
  apply Qmult_le_compat_r.
  - rewrite <- Zle_Qle. lia.
  - apply Qinv_le_0_compat. lra.
Qed.

Lemma kth_percent_at_least_ten k N :
  1 <= k <= N -> N < 2 ^ 53 ->
  Double.leb (num 10) (kth_percent k N) = true.
Proof.
  intros Hk HN. destruct (kth_percent_steps k N Hk HN) as (vq & vm & vs & S).
  destruct (num_rounds 10 ltac:(lia)) as [_ C10].
  pose proof (pow2_pos (-53)) as Ppos.
  destruct S as [_ _ _ _ _ Cs Above _].
  apply (canon_leb _ _ 10 vs); try assumption. lra.
Qed.

Lemma kth_percent_below_95 k N :
  1 <= k <= N -> N < 2 ^ 53 ->
  Double.leb (kth_percent k N) (num 95) = true.
Proof.
  intros Hk HN. destruct (kth_percent_steps k N Hk HN) as (vq & vm & vs & S).
  destruct (num_rounds 95 ltac:(lia)) as [_ C95].
  destruct S as [_ _ _ _ _ Cs _ Below].
  apply (canon_leb _ _ vs 95); try assumption. lra.
Qed.

(* ====================================================================== *)
(** ** Job identifiers *)
(* ====================================================================== *)

Section JobIdentifiers.

Import JsString.

Lemma digit_cases (n : Z) :
  exists k, (k < 10)%nat /\ n mod 10 = Z.of_nat k /\
            digit n = ascii_of_nat (48 + k).
Proof.
  exists (Z.to_nat (n mod 10)).
  pose proof (Z.mod_pos_bound n 10 ltac:(lia)).
  split; [lia|]. split; [lia|]. reflexivity.
Qed.

Lemma digit_is_digit (n : Z) : is_digit (digit n) = true.
Proof.
  destruct (digit_cases n) as (k & Hk & _ & ->).
  do 10 (destruct k as [|k]; [reflexivity|]). lia.
Qed.

Lemma digit_inj (a b : Z) : digit a = digit b -> a mod 10 = b mod 10.
Proof.
  destruct (digit_cases a) as (k & Hk & -> & ->).
  destruct (digit_cases b) as (l & Hl & -> & ->).
  intros H. f_equal.
  apply (f_equal nat_of_ascii) in H.
  rewrite !nat_ascii_embedding in H by lia. lia.
Qed.

Lemma is_digit_kept (a : ascii) :
  is_digit a = true ->
  (Ascii.eqb a "-" || Ascii.eqb a ":")%bool = false /\ Ascii.eqb a "T" = false.
Proof.
  intros H. split.
  - apply Bool.orb_false_iff; split; apply Ascii.eqb_neq; intros ->; discriminate H.
  - apply Ascii.eqb_neq; intros ->; discriminate H.
Qed.

Lemma remove_dash_colon_digit (n : Z) (s : string) :
  remove_dash_colon (String (digit n) s) = String (digit n) (remove_dash_colon s).
Proof.
  cbn [remove_dash_colon].
  destruct (is_digit_kept _ (digit_is_digit n)) as [-> _]. reflexivity.
Qed.

Lemma replace_first_digit (n : Z) (s : string) :
  replace_first "T" "_" (String (digit n) s)
  = String (digit n) (replace_first "T" "_" s).
Proof.
  cbn [replace_first].
  destruct (is_digit_kept _ (digit_is_digit n)) as [_ ->]. reflexivity.
Qed.

Lemma pad2_inj (a b : Z) :
  0 <= a < 100 -> 0 <= b < 100 -> pad 2 a = pad 2 b -> a = b.
Proof.
  intros Ha Hb H. cbn [pad append] in H.
  injection H as H1 H2.
  apply digit_inj in H1, H2.
  rewrite (Z.mod_small (a / 10)), (Z.mod_small (b / 10)) in H1
    by (split; [apply Z.div_pos; lia | apply Z.div_lt_upper_bound; lia]).
  rewrite (Z.div_mod a 10), (Z.div_mod b 10) by lia. lia.
Qed.

Lemma remove_dash_colon_dash (s : string) :
  remove_dash_colon (String "-" s) = remove_dash_colon s.
Proof. reflexivity. Qed.

Lemma remove_dash_colon_colon (s : string) :
  remove_dash_colon (String ":" s) = remove_dash_colon s.
Proof. reflexivity. Qed.

Lemma remove_dash_colon_T (s : string) :
  remove_dash_colon (String "T" s) = String "T" (remove_dash_colon s).
Proof. reflexivity. Qed.

Lemma replace_first_T (s : string) :
  replace_first "T" "_" (String "T" s) = String "_" s.
Proof. reflexivity. Qed.

(** The timestamp of an identifier, for a date of a four-digit year. *)
Lemma compact_of_iso (d : Date) :
  four_digit_year d ->
  substring0 15
    (replace_first "T" "_" (remove_dash_colon (toISOString d)))
  = compact_timestamp d.
Proof.
  intros [Hlo Hhi]. unfold toISOString, compact_timestamp, substring0.
  apply Z.leb_le in Hlo, Hhi. rewrite Hlo, Hhi.
  cbn [andb pad append].
  repeat (rewrite remove_dash_colon_digit || rewrite remove_dash_colon_dash
          || rewrite remove_dash_colon_T || rewrite remove_dash_colon_colon).
  rewrite ?replace_first_digit, replace_first_T.
  reflexivity.
Qed.

Lemma compact_timestamp_shape (d : Date) :
  is_compact_timestamp (compact_timestamp d) = true.
Proof.
  unfold is_compact_timestamp, compact_timestamp.
  cbn [pad append String.length substring Nat.eqb andb all_digits String.eqb].
  rewrite !digit_is_digit. reflexivity.
Qed.

Lemma generateJobId_run (env : environment) (tr : trace) :
  four_digit_year (clock env (List.length tr)) ->
  generateJobId env tr
  = (Return ("job_" ++ compact_timestamp (clock env (List.length tr))),
     (tr ++ [EvNow])%list).
Proof.
  intros H. unfold generateJobId, bind, new_Date, ret.
  now rewrite compact_of_iso.
Qed.

End JobIdentifiers.

(* ====================================================================== *)
(** ** Rules of the program logic *)
(* ====================================================================== *)

Section Rules.

Context {A B : Type}.

Lemma triple_bind (P : trace -> Prop) (m : M A) (k : A -> M B)
    (Q : A -> trace -> Prop) (R : B -> trace -> Prop)
    (E : js_error -> trace -> Prop) :
  triple P m Q E ->
  (forall a, triple (Q a) (k a) R E) ->
  triple P (bind m k) R E.
Proof.
  intros Hm Hk tr HP. unfold bind.
  specialize (Hm tr HP). destruct (m tr) as [[a|e] tr']; [|exact Hm].
  exact (Hk a tr' Hm).
Qed.

Lemma triple_try_catch (P : trace -> Prop) (m : M A) (h : js_error -> M A)
    (Q : A -> trace -> Prop) (E1 E : js_error -> trace -> Prop) :
  triple P m Q E1 ->
  (forall e, triple (E1 e) (h e) Q E) ->
  triple P (try_catch m h) Q E.
Proof.
  intros Hm Hh tr HP. unfold try_catch.
  specialize (Hm tr HP). destruct (m tr) as [[a|e] tr']; [exact Hm|].
  exact (Hh e tr' Hm).
Qed.

Lemma triple_weaken (P P' : trace -> Prop) (m : M A)
    (Q Q' : A -> trace -> Prop) (E E' : js_error -> trace -> Prop) :
  triple P m Q E ->
  (forall tr, P' tr -> P tr) ->
  (forall a tr, Q a tr -> Q' a tr) ->
  (forall e tr, E e tr -> E' e tr) ->
  triple P' m Q' E'.
Proof.
  intros Hm HP HQ HE tr H. specialize (Hm tr (HP tr H)).
  destruct (m tr) as [[a|e] tr']; auto.
Qed.

End Rules.

(** A loop keeps an invariant indexed by the number of iterations done. *)
Lemma triple_iterate (I : nat -> trace -> Prop) (E : js_error -> trace -> Prop)
    (body_ : Z -> M unit) (n : nat) (i0 : Z) :
  (forall k, (k < n)%nat ->
     triple (I k) (body_ (i0 + Z.of_nat k)) (fun _ => I (S k)) E) ->
  triple (I 0%nat) (iterate n i0 body_) (fun _ => I n) E.
Proof.
  revert I i0. induction n as [|n IH]; intros I i0 Hbody.
  - intros tr H. exact H.
  - cbn [iterate]. eapply triple_bind.
    + specialize (Hbody 0%nat ltac:(lia)).
      rewrite Z.add_0_r in Hbody. exact Hbody.
    + intros u. cbv beta. apply (IH (fun k => I (S k))).
      intros k Hk. specialize (Hbody (S k) ltac:(lia)).
      replace (i0 + 1 + Z.of_nat k) with (i0 + Z.of_nat (S k)) by lia.
      exact Hbody.
Qed.

Lemma triple_for_lt (I : nat -> trace -> Prop) (E : js_error -> trace -> Prop)
    (body_ : Z -> M unit) (bound : Z) :
  (forall k, (k < Z.to_nat bound)%nat ->
     triple (I k) (body_ (Z.of_nat k)) (fun _ => I (S k)) E) ->
  triple (I 0%nat) (for_lt bound body_) (fun _ => I (Z.to_nat bound)) E.
Proof. intros H. apply triple_iterate. exact H. Qed.

(** The callback that returns only adds its call to the trace. *)
Lemma recorder_run (percent : number) (msg : string)
    (file_name : option string) (tr : trace) :
  recorder percent msg file_name tr
  = (Return tt, (tr ++ [EvProgress percent msg file_name])%list).
Proof. reflexivity. Qed.

Lemma watched_run (outcome : nat -> option js_error) (percent : number)
    (msg : string) (file_name : option string) (tr : trace) :
  watched outcome percent msg file_name tr
  = (match outcome (List.length tr) with
     | None => Return tt
     | Some e => Throw e
     end, (tr ++ [EvProgress percent msg file_name])%list).
Proof. reflexivity. Qed.

(* ====================================================================== *)
(** ** What each request of the upload does *)
(* ====================================================================== *)

Section Requests.

Context (env : environment).

Lemma generateJobId_returns (tr : trace) :
  exists jobId, generateJobId env tr = (Return jobId, (tr ++ [EvNow])%list).
Proof. unfold generateJobId, bind, new_Date, ret. eexists. reflexivity. Qed.

Lemma createJobManifest_run (jobId email : string) (fileNames : list string)
    (tr : trace) :
  let n := List.length tr in
  let req :=
    EvFetch APPS_SCRIPT_URL
      (post_init
         (create_job jobId email (toISOString (clock env n)) fileNames
            "pending" (toISOString (clock env (n + 1))))) in
  createJobManifest env jobId email fileNames tr
  = (match failure_at env (n + 2) req with
     | None => Return true
     | Some m => Throw (Error m)
     end, (tr ++ [EvNow; EvNow; req])%list).
Proof.
  cbv zeta. unfold createJobManifest, bind, new_Date, fetch, ret, failure_at.
  rewrite !length_app. cbn [List.length].
  replace (List.length tr + 1 + 1)%nat with (List.length tr + 2)%nat by lia.
  rewrite <- !app_assoc. cbn [app].
  destruct (net env _ _ _) as [r|[m]]; reflexivity.
Qed.

Lemma uploadFileChunk_run (jobId : string) (b : Blob) (fileName : string)
    (i total : Z) (tr : trace) :
  let n := List.length tr in
  let req :=
    EvFetch APPS_SCRIPT_URL
      (post_init
         (upload_file jobId fileName (base64Data_of (disk env n b)) i total)) in
  uploadFileChunk env jobId b fileName i total tr
  = match failure_at env n (EvRead b) with
    | Some m => (Throw (Error m), (tr ++ [EvRead b])%list)
    | None =>
        (match failure_at env (n + 1) req with
         | None => Return tt
         | Some m => Throw (Error m)
         end, (tr ++ [EvRead b; req])%list)
    end.
Proof.
  cbv zeta.
  unfold uploadFileChunk, bind, readAsDataURL, try_catch, fetch, ret, throw,
    failure_at.
  destruct (disk env (List.length tr) b) as [result|]; [|reflexivity].
  rewrite !length_app. cbn [List.length base64Data_of].
  rewrite <- !app_assoc. cbn [app].
  destruct (net env _ _ _) as [r|[m]]; reflexivity.
Qed.

Lemma markJobReady_run (jobId : string) (tr : trace) :
  let req := EvFetch APPS_SCRIPT_URL (post_init (mark_ready jobId)) in
  markJobReady env jobId tr
  = (match failure_at env (List.length tr) req with
     | None => Return tt
     | Some m => Throw (Error m)
     end, (tr ++ [req])%list).
Proof.
  cbv zeta. unfold markJobReady, bind, fetch, ret, failure_at.
  destruct (net env _ _ _) as [r|[m]]; reflexivity.
Qed.

End Requests.

(* ====================================================================== *)
(** ** The upload stops at the first failure *)
(* ====================================================================== *)

Section FailFast.

Context (env : environment) (outcome : nat -> option js_error).

Lemma all_succeeded_nil : all_succeeded env [].
Proof. intros [|n] ev H; discriminate H. Qed.

Lemma all_succeeded_snoc (tr : trace) (ev : event) :
  all_succeeded env tr ->
  failure_at env (List.length tr) ev = None ->
  all_succeeded env (tr ++ [ev])%list.
Proof.
  intros Htr Hev n ev' Hn.
  destruct (Nat.lt_ge_cases n (List.length tr)) as [Hlt|Hge].
  - rewrite nth_error_app1 in Hn by exact Hlt. exact (Htr n ev' Hn).
  - rewrite nth_error_app2 in Hn by exact Hge.
    destruct (n - List.length tr)%nat as [|k] eqn:Hk.
    + injection Hn as <-. replace n with (List.length tr) by lia. exact Hev.
    + destruct k; discriminate Hn.
Qed.

Lemma stopped_snoc (tr : trace) (ev : event) (m : string) :
  all_succeeded env tr ->
  failure_at env (List.length tr) ev = Some m ->
  stopped_at_failure env (Error m) (tr ++ [ev])%list.
Proof. intros Htr Hev. exists tr, ev. auto. Qed.

Lemma fails_fast_ret {A} (a : A) : fails_fast env (ret a).
Proof. intros tr H. exact H. Qed.

Lemma fails_fast_bind {A B} (m : M A) (k : A -> M B) :
  fails_fast env m -> (forall a, fails_fast env (k a)) ->
  fails_fast env (bind m k).
Proof.
  intros Hm Hk.
  apply triple_bind with (Q := fun _ => all_succeeded env); assumption.
Qed.

Lemma fails_fast_iterate (n : nat) (i0 : Z) (body_ : Z -> M unit) :
  (forall k, (k < n)%nat -> fails_fast env (body_ (i0 + Z.of_nat k))) ->
  fails_fast env (iterate n i0 body_).
Proof.
  intros H.
  apply (triple_iterate (fun _ => all_succeeded env)). exact H.
Qed.

Lemma fails_fast_createJobManifest (jobId email : string)
    (fileNames : list string) :
  fails_fast env (createJobManifest env jobId email fileNames).
Proof.
  intros tr H. rewrite createJobManifest_run. cbv zeta.
  change [EvNow; EvNow; ?r] with ([EvNow; EvNow] ++ [r])%list.
  assert (Hpre : all_succeeded env (tr ++ [EvNow; EvNow])%list).
  { change [EvNow; EvNow] with ([EvNow] ++ [EvNow])%list. rewrite app_assoc.
    repeat apply all_succeeded_snoc; auto. }
  assert (Hlen : List.length (tr ++ [EvNow; EvNow])%list = (List.length tr + 2)%nat).
  { rewrite length_app. reflexivity. }
  rewrite app_assoc.
  destruct (failure_at env (List.length tr + 2) _) as [m|] eqn:Hreq.
  - apply stopped_snoc; [exact Hpre | now rewrite Hlen].
  - apply all_succeeded_snoc; [exact Hpre | now rewrite Hlen].
Qed.

Lemma fails_fast_uploadFileChunk (jobId : string) (b : Blob)
    (fileName : string) (i total : Z) :
  fails_fast env (uploadFileChunk env jobId b fileName i total).
Proof.
  intros tr H. rewrite uploadFileChunk_run. cbv zeta.
  destruct (failure_at env (List.length tr) (EvRead b)) as [m|] eqn:Hread.
  - apply stopped_snoc; assumption.
  - change [EvRead b; ?r] with ([EvRead b] ++ [r])%list. rewrite app_assoc.
    assert (Hpre : all_succeeded env (tr ++ [EvRead b])%list)
      by (apply all_succeeded_snoc; assumption).
    assert (Hlen : List.length (tr ++ [EvRead b])%list = (List.length tr + 1)%nat)
      by (rewrite length_app; reflexivity).
    destruct (failure_at env (List.length tr + 1) _) as [m|] eqn:Hreq.
    + apply stopped_snoc; [exact Hpre | now rewrite Hlen].
    + apply all_succeeded_snoc; [exact Hpre | now rewrite Hlen].
Qed.

Lemma fails_fast_markJobReady (jobId : string) :
  fails_fast env (markJobReady env jobId).
Proof.
  intros tr H. rewrite markJobReady_run. cbv zeta.
  destruct (failure_at env (List.length tr) _) as [m|] eqn:Hreq.
  - apply stopped_snoc; assumption.
  - apply all_succeeded_snoc; assumption.
Qed.

Lemma fails_fast_uploadSingleFile (jobId : string) (file : File) :
  fails_fast env (uploadSingleFile env jobId file).
Proof.
  unfold uploadSingleFile. destruct (size file <=? chunkSize).
  - apply fails_fast_uploadFileChunk.
  - apply fails_fast_iterate. intros k _. apply fails_fast_uploadFileChunk.
Qed.

Lemma fails_fast_aborts {A} (m : M A) : fails_fast env m -> aborts env m.
Proof.
  intros H. apply (triple_weaken _ _ _ _ _ _ _ H); auto.
Qed.

Lemma aborts_bind {A B} (m : M A) (k : A -> M B) :
  aborts env m -> (forall a, aborts env (k a)) -> aborts env (bind m k).
Proof.
  intros Hm Hk.
  apply triple_bind with (Q := fun _ => all_succeeded env); assumption.
Qed.

Lemma aborts_watched (percent : number) (msg : string)
    (file_name : option string) :
  aborts env (watched outcome percent msg file_name).
Proof.
  intros tr H. rewrite watched_run.
  assert (Hall : all_succeeded env
                   (tr ++ [EvProgress percent msg file_name])%list)
    by (apply all_succeeded_snoc; [exact H | reflexivity]).
  destruct (outcome (List.length tr)); [right|]; exact Hall.
Qed.

Lemma aborts_upload_loop (jobId : string) (files : list File) :
  aborts env
    (for_lt (Z.of_nat (List.length files)) (fun i =>
       match nth_error files (Z.to_nat i) with
       | None => throw (property_of_nothing "undefined" "name")
       | Some file =>
           watched outcome (file_percent i (Z.of_nat (List.length files)))
             ("Uploading file " ++ JsString.of_int (i + 1) ++ " of "
                ++ JsString.of_int (Z.of_nat (List.length files)) ++ "...")
             (Some (name file)) ;;
           uploadSingleFile env jobId file
       end)).
Proof.
  apply (triple_for_lt (fun _ => all_succeeded env)). intros k Hk.
  rewrite !Nat2Z.id in *.
  destruct (nth_error files k) as [file|] eqn:Hfile.
  - apply aborts_bind; [apply aborts_watched | intros _].
    apply fails_fast_aborts, fails_fast_uploadSingleFile.
  - apply nth_error_None in Hfile. lia.
Qed.

(** A run of [uploadFiles] from a trace without failure, under any
    callback: it returns without any failure; or it stops at the first
    failed request or read, logs it and throws its message behind the
    prefix; or nothing has failed and the callback threw. *)
Lemma uploadFiles_aborts (files : list File) (email : string) (tr0 : trace) :
  all_succeeded env tr0 ->
  match uploadFiles env files email (watched outcome) tr0 with
  | (Return _, tr) => all_succeeded env tr
  | (Throw e, tr) =>
      (exists pre ev m,
         tr = (pre ++ [ev; EvConsoleError "Upload error:" (Error m)])%list /\
         all_succeeded env pre /\
         failure_at env (List.length pre) ev = Some m /\
         e = Error ("Upload failed: " ++ m))
      \/ all_succeeded env tr
  end.
Proof.
  intros H0. unfold uploadFiles, bind at 1.
  destruct (generateJobId_returns env tr0) as [jobId ->].
  unfold bind at 1. rewrite watched_run.
  set (tr1 :=
         ((tr0 ++ [EvNow]) ++ [EvProgress (num 0) "Creating job..." None])%list).
  assert (H1 : all_succeeded env tr1)
    by (repeat apply all_succeeded_snoc; auto).
  destruct (outcome (List.length (tr0 ++ [EvNow])%list)) as [e0|].
  { right. exact H1. }
  revert H1. generalize tr1. clear tr0 H0 tr1.
  apply triple_try_catch
    with (E1 := fun e tr => stopped_at_failure env e tr \/ all_succeeded env tr).
  - apply aborts_bind;
      [apply fails_fast_aborts, fails_fast_createJobManifest | intros _].
    apply aborts_bind; [apply aborts_watched | intros _].
    apply aborts_bind; [apply aborts_upload_loop | intros _].
    apply aborts_bind; [apply aborts_watched | intros _].
    apply aborts_bind;
      [apply fails_fast_aborts, fails_fast_markJobReady | intros _].
    apply aborts_bind; [apply aborts_watched | intros _].
    apply fails_fast_aborts, fails_fast_ret.
  - intros [m] tr [(pre & ev & -> & Hpre & Hev) | Hall]; cbn.
    + left. exists pre, ev, m. rewrite <- app_assoc. auto.
    + right. apply all_succeeded_snoc; [exact Hall | reflexivity].
Qed.

End FailFast.

(* ====================================================================== *)
(** ** The number of chunks *)
(* ====================================================================== *)

Lemma Math_ceil_quotient (S : Z) :
  Math_ceil (inject_Z S / inject_Z chunkSize) = - ((- S) / chunkSize).
Proof.
  unfold Math_ceil, Qceiling, Qfloor, Qdiv, Qmult, Qinv, Qopp, inject_Z.
  change chunkSize with 10485760. cbn [Qnum Qden].
  rewrite Z.mul_1_r. reflexivity.
Qed.

Lemma Math_ceil_bounds (S : Z) :
  let t := Math_ceil (inject_Z S / inject_Z chunkSize) in
  (t - 1) * chunkSize < S <= t * chunkSize.
Proof.
  cbv zeta. rewrite Math_ceil_quotient. change chunkSize with 10485760.
  pose proof (Z.div_mod (- S) 10485760 ltac:(lia)).
  pose proof (Z.mod_pos_bound (- S) 10485760 ltac:(lia)).
  lia.
Qed.

Lemma chunk_count_small (f : File) :
  size f <= chunkSize -> chunk_count f = 1.
Proof.
  intros H. unfold chunk_count.
  pose proof (Math_ceil_bounds (size f)) as Hb. cbv zeta in Hb.
  unfold Math_ceil in Hb. change chunkSize with 10485760 in *. nia.
Qed.

Lemma chunk_count_large (f : File) :
  chunkSize < size f ->
  chunk_count f = Math_ceil (inject_Z (size f) / inject_Z chunkSize).
Proof.
  intros H. unfold chunk_count.
  pose proof (Math_ceil_bounds (size f)) as Hb. cbv zeta in Hb.
  unfold Math_ceil in *. change chunkSize with 10485760 in *. nia.
Qed.

Lemma chunk_count_ceil (f : File) :
  1 <= size f ->
  chunk_count f = Qceiling (inject_Z (size f) / inject_Z chunkSize).
Proof.
  intros H. unfold chunk_count.
  pose proof (Math_ceil_bounds (size f)) as Hb. cbv zeta in Hb.
  unfold Math_ceil in *. change chunkSize with 10485760 in *. nia.
Qed.

Lemma chunk_count_bounds (f : File) :
  1 <= chunk_count f /\
  (chunk_count f - 1) * chunkSize < Z.max 1 (size f) <= chunk_count f * chunkSize.
Proof.
  unfold chunk_count.
  pose proof (Math_ceil_bounds (size f)) as Hb. cbv zeta in Hb.
  unfold Math_ceil in *. change chunkSize with 10485760 in *. nia.
Qed.

(** The blob that [uploadSingleFile] slices for chunk [i] is the range of
    the chunking formula. *)
Lemma slice_chunk (f : File) (i : Z) :
  0 <= i -> i * chunkSize < size f ->
  slice f (i * chunkSize) (Math_min (i * chunkSize + chunkSize) (size f))
  = chunk_range f i.
Proof.
  intros Hi Hlt. unfold slice, chunk_range, Math_min.
  change chunkSize with 10485760 in *.
  destruct (i * 10485760 <? 0) eqn:H1; [apply Z.ltb_lt in H1; lia|].
  destruct (Z.min (i * 10485760 + 10485760) (size f) <? 0) eqn:H2;
    [apply Z.ltb_lt in H2; lia|].
  f_equal; lia.
Qed.

Lemma whole_chunk (f : File) :
  size f <= chunkSize -> whole f = chunk_range f 0.
Proof.
  intros H. unfold whole, chunk_range. change chunkSize with 10485760 in *.
  f_equal. lia.
Qed.

(* ====================================================================== *)
(** ** The outline of an upload *)
(* ====================================================================== *)

Lemma prefix_refl {A} (l : list A) : prefix l l.
Proof. exists []. now rewrite app_nil_r. Qed.

Lemma prefix_nil {A} (l : list A) : prefix [] l.
Proof. exists l. reflexivity. Qed.

Lemma prefix_app_r {A} (l1 l2 l3 : list A) :
  prefix l1 l2 -> prefix l1 (l2 ++ l3).
Proof. intros [rest ->]. exists (rest ++ l3)%list. now rewrite app_assoc. Qed.

Lemma prefix_app_l {A} (l l1 l2 : list A) :
  prefix l1 l2 -> prefix (l ++ l1) (l ++ l2).
Proof. intros [rest ->]. exists rest. now rewrite app_assoc. Qed.

Lemma outline_app (tr1 tr2 : trace) :
  outline (tr1 ++ tr2) = (outline tr1 ++ outline tr2)%list.
Proof. apply flat_map_app. Qed.

Lemma flat_map_singleton {A B} (f : A -> B) (l : list A) :
  flat_map (fun x => [f x]) l = map f l.
Proof. induction l as [|x l IH]; simpl; [reflexivity | now rewrite IH]. Qed.

Section Emits.

Context (env : environment) (outcome : nat -> option js_error).

Lemma emits_ret {A} (a : A) : emits (ret a) [].
Proof. intros pre tr H. simpl. now rewrite app_nil_r. Qed.

Lemma emits_bind {A B} (m : M A) (k : A -> M B) (X Y : list step) :
  emits m X -> (forall a, emits (k a) Y) -> emits (bind m k) (X ++ Y).
Proof.
  intros Hm Hk pre tr Hpre. unfold bind.
  specialize (Hm pre tr Hpre). destruct (m tr) as [[a|e] tr'].
  - specialize (Hk a (pre ++ X)%list tr' Hm).
    destruct (k a tr') as [[b|e] tr''].
    + now rewrite app_assoc.
    + destruct Hk as (mid & Hout & Hmid).
      exists (X ++ mid)%list. split.
      * now rewrite app_assoc.
      * now apply prefix_app_l.
  - destruct Hm as (mid & Hout & Hmid).
    exists mid. split; [exact Hout | now apply prefix_app_r].
Qed.

Lemma emits_emit (ev : event) : emits (emit ev) (step_of ev).
Proof.
  intros pre tr <-. cbn [emit]. rewrite outline_app.
  unfold outline at 2. cbn [flat_map]. now rewrite app_nil_r.
Qed.

(** A computation whose trace grows by the same steps whether it returns
    or throws. *)
Lemma emits_always {A} (m : M A) (X : list step) :
  (forall tr, exists evs, snd (m tr) = (tr ++ evs)%list /\ outline evs = X) ->
  emits m X.
Proof.
  intros H pre tr <-. destruct (H tr) as (evs & Htr & <-).
  destruct (m tr) as [[a|e] tr']; cbn [snd] in Htr; subst tr';
    rewrite outline_app; [reflexivity|].
  eexists. split; [reflexivity | apply prefix_refl].
Qed.

Lemma emits_watched (percent : number) (msg : string)
    (file_name : option string) :
  emits (watched outcome percent msg file_name) [Reported percent].
Proof.
  apply emits_always. intros tr. rewrite watched_run.
  eexists. split; reflexivity.
Qed.

Lemma emits_createJobManifest (jobId email : string) (fileNames : list string) :
  emits (createJobManifest env jobId email fileNames)
        [Created jobId email fileNames].
Proof.
  apply emits_always. intros tr. rewrite createJobManifest_run.
  eexists. split; reflexivity.
Qed.

Lemma emits_markJobReady (jobId : string) :
  emits (markJobReady env jobId) [Ready jobId].
Proof.
  apply emits_always. intros tr. rewrite markJobReady_run.
  eexists. split; reflexivity.
Qed.

Lemma emits_uploadFileChunk (jobId : string) (b : Blob) (fileName : string)
    (i total : Z) :
  emits (uploadFileChunk env jobId b fileName i total)
        [Chunk jobId fileName i total].
Proof.
  intros pre tr <-. rewrite uploadFileChunk_run. cbv zeta.
  destruct (failure_at env (List.length tr) (EvRead b)).
  - exists []. rewrite outline_app. split; [reflexivity | apply prefix_nil].
  - destruct (failure_at env (List.length tr + 1) _);
      rewrite outline_app; [|reflexivity].
    eexists. split; [reflexivity | apply prefix_refl].
Qed.

Lemma emits_iterate (body_ : Z -> M unit) (X : nat -> list step)
    (n : nat) (i0 : Z) (s : nat) :
  (forall k, (k < n)%nat -> emits (body_ (i0 + Z.of_nat k)) (X (s + k)%nat)) ->
  emits (iterate n i0 body_) (flat_map X (seq s n)).
Proof.
  revert i0 s. induction n as [|n IH]; intros i0 s Hbody.
  - apply emits_ret.
  - cbn [iterate seq flat_map]. apply emits_bind.
    + specialize (Hbody 0%nat ltac:(lia)).
      now rewrite Z.add_0_r, Nat.add_0_r in Hbody.
    + intros _. apply IH. intros k Hk.
      specialize (Hbody (S k) ltac:(lia)).
      replace (i0 + 1 + Z.of_nat k) with (i0 + Z.of_nat (S k)) by lia.
      now replace (S s + k)%nat with (s + S k)%nat by lia.
Qed.

Lemma emits_uploadSingleFile (jobId : string) (file : File) :
  emits (uploadSingleFile env jobId file) (file_steps jobId file).
Proof.
  unfold uploadSingleFile, file_steps.
  destruct (size file <=? chunkSize) eqn:Hsmall.
  - apply Z.leb_le in Hsmall. rewrite (chunk_count_small _ Hsmall).
    apply emits_uploadFileChunk.
  - apply Z.leb_gt in Hsmall. rewrite <- (chunk_count_large _ Hsmall).
    rewrite <- flat_map_singleton. unfold for_lt.
    apply emits_iterate. intros k _. apply emits_uploadFileChunk.
Qed.

(** The loop of [uploadFiles] over the files still to send. *)
Lemma emits_upload_loop (jobId : string) (done rest : list File) :
  let files := (done ++ rest)%list in
  let totalFiles := Z.of_nat (List.length files) in
  emits
    (iterate (List.length rest) (Z.of_nat (List.length done)) (fun i =>
       match nth_error files (Z.to_nat i) with
       | None => throw (property_of_nothing "undefined" "name")
       | Some file =>
           watched outcome (file_percent i totalFiles)
             ("Uploading file " ++ JsString.of_int (i + 1) ++ " of "
                ++ JsString.of_int totalFiles ++ "...")
             (Some (name file)) ;;
           uploadSingleFile env jobId file
       end))
    (files_outline jobId totalFiles (Z.of_nat (List.length done) + 1) rest).
Proof.
  revert done. induction rest as [|f rest IH]; intros done; cbv zeta.
  - apply emits_ret.
  - cbn [List.length iterate files_outline].
    change (Reported ?p :: ?a ++ ?b)%list with ((Reported p :: a) ++ b)%list.
    apply emits_bind.
    + rewrite Nat2Z.id, nth_error_app2, Nat.sub_diag by lia. cbn [nth_error].
      change (Reported ?p :: ?a)%list with ([Reported p] ++ a)%list.
      apply emits_bind.
      * apply emits_watched.
      * intros _. apply emits_uploadSingleFile.
    + intros _. specialize (IH (done ++ [f])%list). cbv zeta in IH.
      rewrite <- app_assoc in IH. cbn [app] in IH.
      rewrite length_app in IH. cbn [List.length] in IH.
      replace (Z.of_nat (List.length done + 1)) with
        (Z.of_nat (List.length done) + 1) in IH by lia.
      exact IH.
Qed.

(** Every run of [uploadFiles] follows the outline of the upload, whatever
    the callback does: all of it when it returns, a beginning of it that
    holds the first report when it throws. *)
Lemma uploadFiles_outline (files : list File) (email : string) :
  exists jobId,
    fst (generateJobId env []) = Return jobId /\
    match uploadFiles env files email (watched outcome) [] with
    | (Return _, tr) => outline tr = upload_outline jobId email files
    | (Throw e, tr) =>
        exists mid,
          outline tr = (Reported (num 0) :: mid)%list /\
          prefix (Reported (num 0) :: mid) (upload_outline jobId email files)
    end.
Proof.
  unfold uploadFiles, bind at 1.
  destruct (generateJobId_returns env []) as [jobId Hid]. rewrite Hid.
  exists jobId. split; [reflexivity|].
  unfold bind at 1. rewrite watched_run.
  destruct (outcome (List.length ([] ++ [EvNow]))%list) as [e0|].
  { exists []. split; [reflexivity|]. exists (tl (upload_outline jobId email files)).
    reflexivity. }
  unfold try_catch.
  set (body_ := bind (createJobManifest _ _ _ _) _).
  assert (Hbody : emits body_
            ([Created jobId email (map name files)] ++ [Reported (num 10)]
             ++ files_outline jobId (Z.of_nat (List.length files)) 1 files
             ++ [Reported (num 95)] ++ [Ready jobId] ++ [Reported (num 100)]
             ++ [])%list).
  { subst body_.
    apply emits_bind; [apply emits_createJobManifest | intros _].
    apply emits_bind; [apply emits_watched | intros _].
    apply emits_bind; [|intros _].
    { pose proof (emits_upload_loop jobId [] files) as Hloop.
      cbv zeta in Hloop. cbn [app List.length Z.of_nat Z.add] in Hloop.
      unfold for_lt. rewrite Nat2Z.id. exact Hloop. }
    apply emits_bind; [apply emits_watched | intros _].
    apply emits_bind; [apply emits_markJobReady | intros _].
    apply emits_bind; [apply emits_watched | intros _].
    apply emits_ret. }
  specialize (Hbody [Reported (num 0)]
    ([] ++ [EvNow] ++ [EvProgress (num 0) "Creating job..." None])%list eq_refl).
  cbn [app] in *.
  destruct (body_ _) as [[j|e] tr].
  - exact Hbody.
  - destruct Hbody as (mid & Hout & Hmid).
    cbn. rewrite outline_app, app_nil_r. exists mid. split; [exact Hout|].
    apply (prefix_app_l [Reported (num 0)]) in Hmid. exact Hmid.
Qed.

End Emits.

(* ====================================================================== *)
(** ** Queries *)
(* ====================================================================== *)

(** Case analysis on what the network, the parser and the document give
    to a query. *)
Ltac query_cases :=
  unfold try_catch, bind, fetch, query_result, underlying_message;
  repeat
    (cbn [ok json_body negb throw ret response_json get_property fst snd
          message field console_error emit];
     match goal with
     | |- context [net ?w ?n ?u ?i] =>
         destruct (net w n u i) as [[[|] [?|?]]|?]
     | |- context [get_property ?d _] => is_var d; destruct d
     | |- context [assoc "error" ?p] => destruct (assoc "error" p)
     | |- context [truthy (Some ?v)] => destruct (truthy (Some v))
     | |- context [truthy None] => change (truthy None) with false
     end);
  cbn [ok json_body negb throw ret response_json get_property fst snd
       message field console_error emit].

Ltac run_query := query_cases; reflexivity.

Section Queries.

Context (env : environment).

Lemma getJobStatus_result (jobId : string) (tr : trace) :
  fst (getJobStatus env jobId tr)
  = query_result
      (net env (List.length tr)
         (APPS_SCRIPT_URL ++ "?action=get_status&job_id=" ++ jobId) get_init)
      "Could not retrieve job status: " "Failed to get status" (fun data => data).
Proof. unfold getJobStatus. run_query. Qed.

Lemma getJobResults_result (jobId : string) (tr : trace) :
  fst (getJobResults env jobId tr)
  = query_result
      (net env (List.length tr)
         (APPS_SCRIPT_URL ++ "?action=get_results&job_id=" ++ jobId) get_init)
      "Could not retrieve results: " "Failed to get results" (fun data => data).
Proof. unfold getJobResults. run_query. Qed.

Lemma getDownloadUrl_result (jobId fileId : string) (tr : trace) :
  fst (getDownloadUrl env jobId fileId tr)
  = query_result
      (net env (List.length tr)
         (APPS_SCRIPT_URL ++ "?action=get_download_url&job_id=" ++ jobId
            ++ "&file_id=" ++ fileId)
         (mkInit "GET" None [("Content-Type", "application/json")] None))
      "Could not get download URL: " "Failed to get download URL" (field "url").
Proof. unfold getDownloadUrl. run_query. Qed.

End Queries.

Lemma query_result_contract {A} (o : fetch_outcome) (phase not_ok_msg : string)
    (project : json -> A) :
  query_contract o (query_result o phase not_ok_msg project)
                 phase not_ok_msg project.
Proof.
  unfold query_contract, query_result.
  destruct (underlying_message not_ok_msg o) as [m|] eqn:Hm.
  - split; [|split].
    + split; [|intros _; eexists; reflexivity].
      intros _. unfold underlying_message in Hm.
      destruct o as [[okr [e|data]]|e].
      * destruct okr.
        -- right; right; left. exists (mkResponse true (inl e)), e. auto.
        -- right; left. eexists. split; [reflexivity|reflexivity].
      * destruct okr.
        -- right; right; right. exists data. split.
           ++ eexists. split; [reflexivity|]. split; reflexivity.
           ++ cbn [ok json_body] in Hm.
              destruct data; try (left; reflexivity); right;
                cbn [field] in *; try discriminate Hm.
              destruct (assoc "error" props) as [v|]; [|discriminate Hm].
              destruct (truthy (Some v)); [reflexivity | discriminate Hm].
        -- right; left. eexists. split; [reflexivity|reflexivity].
      * left. exists e. reflexivity.
    + intros e [= <-]. exists m. split; reflexivity.
    + intros a [=].
  - unfold underlying_message in Hm.
    destruct o as [[okr [e|data]]|e]; try discriminate Hm;
      destruct okr; try discriminate Hm.
    cbn [ok json_body] in Hm.
    assert (Hp : parsed (Resolved (mkResponse true (inr data))) data).
    { eexists. split; [reflexivity|]. split; reflexivity. }
    assert (Hfalsy : data <> JNull /\ truthy (field "error" data) = false).
    { destruct data; try discriminate Hm; split; try discriminate;
        try reflexivity.
      cbn [field] in *. destruct (assoc "error" props) as [v|]; [|reflexivity].
      destruct (truthy (Some v)); [discriminate Hm | reflexivity]. }
    destruct Hfalsy as [Hnn Hfalsy].
    split; [|split].
    + split; [intros [e [=]]|].
      intros [[e [=]] | [(r & [= <-] & [=]) | [(r & e & [= <-] & _ & [=]) | H]]].
      destruct H as (data' & (r & [= <-] & _ & [= <-]) & [-> | Ht]).
      * now contradiction Hnn.
      * rewrite Hfalsy in Ht. discriminate Ht.
    + intros e [=].
    + intros a [= <-]. exists data. auto.
Qed.

(* ====================================================================== *)
(** ** The events of one file *)
(* ====================================================================== *)

Section FileEvents.

Context (env : environment) (jobId : string) (f : File).

Lemma length_chunk_events (base s k : nat) :
  List.length (flat_map (chunk_events env jobId f base) (seq s k)) = (2 * k)%nat.
Proof.
  revert s. induction k as [|k IH]; intros s; [reflexivity|].
  cbn [seq flat_map]. rewrite length_app, IH. cbn [chunk_events List.length]. lia.
Qed.

Lemma uploads_of_chunk_events (base : nat) (l : list nat) :
  List.length (filter is_upload (flat_map (chunk_events env jobId f base) l))
  = List.length l.
Proof.
  induction l as [|i l IH]; [reflexivity|].
  cbn [flat_map]. rewrite filter_app, length_app, IH. reflexivity.
Qed.

Lemma count_uploads_file_events (base : nat) :
  count_uploads (file_events env jobId f base) = chunk_count f.
Proof.
  unfold count_uploads, file_events.
  rewrite uploads_of_chunk_events, length_seq.
  pose proof (chunk_count_bounds f). lia.
Qed.

(** When [uploadSingleFile] returns, it has read and posted each chunk of
    the file in turn. *)
Lemma uploadSingleFile_events (tr0 : trace) :
  triple (fun tr => tr = tr0) (uploadSingleFile env jobId f)
    (fun _ tr => tr = (tr0 ++ file_events env jobId f (List.length tr0))%list)
    (fun _ _ => True).
Proof.
  unfold uploadSingleFile, file_events.
  destruct (size f <=? chunkSize) eqn:Hsmall.
  - apply Z.leb_le in Hsmall. intros tr ->.
    rewrite uploadFileChunk_run. cbv zeta.
    destruct (failure_at env _ (EvRead _)); [exact I|].
    destruct (failure_at env _ (EvFetch _ _)); [exact I|].
    rewrite (chunk_count_small _ Hsmall), (whole_chunk _ Hsmall).
    change (Z.to_nat 1) with 1%nat. cbn [seq flat_map app].
    unfold chunk_events. cbn [Z.of_nat Nat.mul].
    rewrite Nat.add_0_r, (chunk_count_small _ Hsmall). reflexivity.
  - apply Z.leb_gt in Hsmall. rewrite <- (chunk_count_large _ Hsmall).
    pose proof (chunk_count_bounds f) as (Hone & Hlo & Hhi).
    eapply triple_weaken.
    + apply (triple_for_lt
               (fun k tr =>
                  tr = (tr0 ++ flat_map (chunk_events env jobId f (List.length tr0))
                                  (seq 0 k))%list)
               (fun _ _ => True)).
      intros k Hk tr ->. rewrite uploadFileChunk_run. cbv zeta.
      destruct (failure_at env _ (EvRead _)); [exact I|].
      destruct (failure_at env _ (EvFetch _ _)); [exact I|].
      rewrite seq_S, flat_map_app, <- app_assoc. cbn [flat_map Nat.add].
      rewrite app_nil_r, length_app, length_chunk_events.
      do 2 f_equal. unfold chunk_events.
      rewrite slice_chunk by nia. reflexivity.
    + intros tr ->. cbn [seq flat_map]. now rewrite app_nil_r.
    + intros _ tr ->. reflexivity.
    + auto.
Qed.

Lemma last_chunk_size :
  0 <= size f ->
  blob_size (chunk_range f (chunk_count f - 1))
  = size f - (chunk_count f - 1) * chunkSize.
Proof.
  intros H. pose proof (chunk_count_bounds f) as (Hone & Hlo & Hhi).
  unfold blob_size, chunk_range. cbn [hi lo]. nia.
Qed.

End FileEvents.

(* ====================================================================== *)
(** ** Requests and percentages of the outline *)
(* ====================================================================== *)

Lemma prefix_filter {A} (p : A -> bool) (l1 l2 : list A) :
  prefix l1 l2 -> prefix (filter p l1) (filter p l2).
Proof. intros [rest ->]. exists (filter p rest). apply filter_app. Qed.

Lemma prefix_flat_map {A B} (g : A -> list B) (l1 l2 : list A) :
  prefix l1 l2 -> prefix (flat_map g l1) (flat_map g l2).
Proof. intros [rest ->]. exists (flat_map g rest). apply flat_map_app. Qed.

Lemma prefix_snoc_cases {A} (l body_ : list A) (x : A) :
  prefix l (body_ ++ [x]) -> l = (body_ ++ [x])%list \/ prefix l body_.
Proof.
  intros [rest H]. destruct rest as [|y rest] using rev_ind.
  - left. now rewrite app_nil_r in H.
  - right. rewrite app_assoc in H. apply app_inj_tail in H as [-> _].
    now exists rest.
Qed.

Lemma nondecreasing_prefix (l1 l2 : list number) :
  nondecreasing (l1 ++ l2) -> nondecreasing l1.
Proof.
  induction l1 as [|x [|y l1] IH]; cbn; auto.
  intros [Hxy H]. split; [exact Hxy | exact (IH H)].
Qed.

Section Plan.

Context (jobId : string).

Lemma sent_file_steps (f : File) :
  filter is_request (file_steps jobId f) = file_steps jobId f.
Proof.
  unfold file_steps. induction (seq 0 _) as [|i l IH]; cbn; [reflexivity|].
  now rewrite IH.
Qed.

Lemma percents_file_steps (f : File) :
  flat_map (fun s => match s with Reported p => [p] | _ => [] end)
           (file_steps jobId f) = [].
Proof.
  unfold file_steps. induction (seq 0 _) as [|i l IH]; cbn; [reflexivity|].
  exact IH.
Qed.

Lemma sent_files_outline (N k : Z) (files : list File) :
  filter is_request (files_outline jobId N k files)
  = flat_map (file_steps jobId) files.
Proof.
  revert k. induction files as [|f files IH]; intros k; [reflexivity|].
  cbn [files_outline filter is_request flat_map].
  now rewrite filter_app, sent_file_steps, IH.
Qed.

Lemma percents_files_outline (N : Z) (s : nat) (files : list File) :
  flat_map (fun s => match s with Reported p => [p] | _ => [] end)
           (files_outline jobId N (Z.of_nat s) files)
  = map (fun k => kth_percent (Z.of_nat k) N) (seq s (List.length files)).
Proof.
  revert s. induction files as [|f files IH]; intros s; [reflexivity|].
  cbn [files_outline flat_map List.length seq map app].
  rewrite flat_map_app, percents_file_steps. cbn [app].
  replace (Z.of_nat s + 1) with (Z.of_nat (S s)) by lia.
  now rewrite IH.
Qed.

Lemma sent_upload_outline (email : string) (files : list File) :
  filter is_request (upload_outline jobId email files)
  = upload_plan jobId email files.
Proof.
  unfold upload_outline, upload_plan.
  cbn [app filter is_request]. rewrite filter_app, sent_files_outline.
  reflexivity.
Qed.

Lemma percents_upload_outline (email : string) (files : list File) :
  flat_map (fun s => match s with Reported p => [p] | _ => [] end)
           (upload_outline jobId email files)
  = checkpoints (List.length files).
Proof.
  unfold upload_outline, checkpoints.
  cbn [app flat_map]. rewrite flat_map_app.
  now rewrite (percents_files_outline _ 1).
Qed.

(** No [mark_ready] among the requests that come before the last. *)
Lemma plan_body_not_ready (email : string) (files : list File) (j : string) :
  ~ In (Ready j)
      (Created jobId email (map name files) :: flat_map (file_steps jobId) files).
Proof.
  intros [H|H]; [discriminate H|].
  apply in_flat_map in H as (f & _ & H). unfold file_steps in H.
  apply in_map_iff in H as (i & H & _). discriminate H.
Qed.

End Plan.

(* ====================================================================== *)
(** ** The checkpoints never go down *)
(* ====================================================================== *)

(** The percentages of the files from the [s]-th on, after that of the
    file before, and the two checkpoints that follow them. *)
Lemma files_nondecreasing (N : nat) (n s : nat) :
  Z.of_nat N < 2 ^ 53 -> (s + n = N + 1)%nat -> (2 <= s)%nat ->
  nondecreasing
    (kth_percent (Z.of_nat s - 1) (Z.of_nat N)
       :: map (fun k => kth_percent (Z.of_nat k) (Z.of_nat N)) (seq s n)
       ++ [num 95; num 100]).
Proof.
  intros HN. revert s. induction n as [|n IH]; intros s Hs H1.
  - cbn [seq map app nondecreasing].
    split; [apply kth_percent_below_95; lia|]. split; [reflexivity | exact I].
  - cbn [seq map app nondecreasing]. split.
    + apply kth_percent_mono; lia.
    + specialize (IH (S s) ltac:(lia) ltac:(lia)).
      replace (Z.of_nat (S s) - 1) with (Z.of_nat s) in IH by lia. exact IH.
Qed.

Lemma checkpoints_nondecreasing (N : nat) :
  Z.of_nat N < 2 ^ 53 -> nondecreasing (checkpoints N).
Proof.
  intros HN. unfold checkpoints. destruct N as [|N].
  - cbn. repeat split.
  - cbn [seq map app nondecreasing].
    split; [reflexivity|].
    split; [apply kth_percent_at_least_ten; lia|].
    apply (files_nondecreasing (S N) N 2 HN); lia.
Qed.

Lemma checkpoints_last (N : nat) : last (checkpoints N) (num 0) = num 100.
Proof.
  unfold checkpoints.
  change [num 95; num 100] with ([num 95] ++ [num 100])%list.
  now rewrite !app_assoc, last_last.
Qed.

(* ====================================================================== *)
(** ** The responses to the POST requests are never read *)
(* ====================================================================== *)

Lemma bind_ext {A B} (m1 m2 : M A) (k1 k2 : A -> M B) :
  (forall tr, m1 tr = m2 tr) -> (forall a tr, k1 a tr = k2 a tr) ->
  forall tr, bind m1 k1 tr = bind m2 k2 tr.
Proof.
  intros Hm Hk tr. unfold bind. rewrite Hm.
  destruct (m2 tr) as [[a|e] tr']; [apply Hk | reflexivity].
Qed.

Lemma try_catch_ext {A} (m1 m2 : M A) (h : js_error -> M A) :
  (forall tr, m1 tr = m2 tr) ->
  forall tr, try_catch m1 h tr = try_catch m2 h tr.
Proof. intros Hm tr. unfold try_catch. now rewrite Hm. Qed.

Lemma iterate_ext (b1 b2 : Z -> M unit) (n : nat) (i0 : Z) :
  (forall i tr, b1 i tr = b2 i tr) ->
  forall tr, iterate n i0 b1 tr = iterate n i0 b2 tr.
Proof.
  intros Hb. revert i0. induction n as [|n IH]; intros i0 tr; [reflexivity|].
  cbn [iterate]. apply bind_ext; [apply Hb | intros _; apply IH].
Qed.

Section SameUpToResponses.

Context (env1 env2 : environment).
Hypothesis Hsame : same_up_to_responses env1 env2.

Lemma failure_at_same (n : nat) (ev : event) :
  failure_at env1 n ev = failure_at env2 n ev.
Proof.
  destruct Hsame as (_ & Hdisk & Hnet).
  destruct ev as [| | b | url init |]; cbn [failure_at]; try reflexivity.
  - now rewrite Hdisk.
  - specialize (Hnet n url init).
    destruct (net env1 n url init), (net env2 n url init);
      try contradiction; congruence.
Qed.

Lemma generateJobId_same (tr : trace) :
  generateJobId env1 tr = generateJobId env2 tr.
Proof.
  destruct Hsame as (Hclock & _). unfold generateJobId, bind, new_Date.
  now rewrite Hclock.
Qed.

Lemma createJobManifest_same (jobId email : string) (fileNames : list string)
    (tr : trace) :
  createJobManifest env1 jobId email fileNames tr
  = createJobManifest env2 jobId email fileNames tr.
Proof.
  rewrite !createJobManifest_run. cbv zeta.
  destruct Hsame as (Hclock & _). now rewrite !Hclock, failure_at_same.
Qed.

Lemma uploadFileChunk_same (jobId : string) (b : Blob) (fileName : string)
    (i total : Z) (tr : trace) :
  uploadFileChunk env1 jobId b fileName i total tr
  = uploadFileChunk env2 jobId b fileName i total tr.
Proof.
  rewrite !uploadFileChunk_run. cbv zeta.
  destruct Hsame as (_ & Hdisk & _). now rewrite !Hdisk, !failure_at_same.
Qed.

Lemma markJobReady_same (jobId : string) (tr : trace) :
  markJobReady env1 jobId tr = markJobReady env2 jobId tr.
Proof. rewrite !markJobReady_run. cbv zeta. now rewrite failure_at_same. Qed.

Lemma uploadSingleFile_same (jobId : string) (file : File) (tr : trace) :
  uploadSingleFile env1 jobId file tr = uploadSingleFile env2 jobId file tr.
Proof.
  unfold uploadSingleFile. destruct (size file <=? chunkSize).
  - apply uploadFileChunk_same.
  - apply iterate_ext. intros i tr'. apply uploadFileChunk_same.
Qed.

Lemma uploadFiles_same (files : list File) (email : string)
    (progressCallback : callback) (tr : trace) :
  uploadFiles env1 files email progressCallback tr
  = uploadFiles env2 files email progressCallback tr.
Proof.
  unfold uploadFiles.
  apply bind_ext; [apply generateJobId_same | intros jobId tr1].
  apply bind_ext; [reflexivity | intros _ tr2].
  apply try_catch_ext. intros tr3.
  apply bind_ext; [apply createJobManifest_same | intros _ tr4].
  apply bind_ext; [reflexivity | intros _ tr5].
  apply bind_ext; [|intros _ tr6].
  { apply iterate_ext. intros i tr6.
    destruct (nth_error files (Z.to_nat i)); [|reflexivity].
    apply bind_ext; [reflexivity | intros _ tr7].
    apply uploadSingleFile_same. }
  apply bind_ext; [reflexivity | intros _ tr7].
  apply bind_ext; [apply markJobReady_same | intros _ tr8].
  reflexivity.
Qed.

End SameUpToResponses.

(* ====================================================================== *)
(** ** Chunking (C1) *)
(* ====================================================================== *)

(** C1, as amended.  When [uploadSingleFile] returns for a file of size
    [S], it has made [chunk_count] calls of [upload_file], where
    [chunk_count] is [ceil(S / C)] for [S >= 1] and one for the empty
    file; call [i] follows the read of the bytes
    [[i·C, min((i+1)·C, S))] and posts what that read loaded, with
    [chunk_index = i] and [total_chunks = chunk_count]; and the last chunk
    holds [S − (chunk_count − 1)·C] bytes. *)
Theorem uploaded_file_chunks (env : environment) (jobId : string) (f : File)
    (tr0 : trace) :
  0 <= size f ->
  fst (uploadSingleFile env jobId f tr0) = Return tt ->
  snd (uploadSingleFile env jobId f tr0)
    = (tr0 ++ file_events env jobId f (List.length tr0))%list /\
  count_uploads (file_events env jobId f (List.length tr0)) = chunk_count f /\
  (1 <= size f ->
   chunk_count f = Qceiling (inject_Z (size f) / inject_Z chunkSize)) /\
  (size f = 0 -> chunk_count f = 1) /\
  blob_size (chunk_range f (chunk_count f - 1))
    = size f - (chunk_count f - 1) * chunkSize.
Proof.
  intros Hsize Hret.
  pose proof (uploadSingleFile_events env jobId f tr0 tr0 eq_refl) as Hev.
  destruct (uploadSingleFile env jobId f tr0) as [[u|e] tr];
    cbn [fst snd] in *; [|discriminate Hret].
  split; [exact Hev|].
  split; [apply count_uploads_file_events|].
  split; [apply chunk_count_ceil|].
  split; [|now apply last_chunk_size].
  intros H0. apply chunk_count_small. rewrite H0. discriminate.
Qed.

Lemma uploaded_file_chunks_witness :
  snd (uploadSingleFile Sample.calm Sample.job Sample.big [])
    = file_events Sample.calm Sample.job Sample.big 0 /\
  count_uploads (file_events Sample.calm Sample.job Sample.big 0) = 3 /\
  blob_size (chunk_range Sample.big 2) = 5 * Sample.MiB.
Proof.
  destruct (uploaded_file_chunks Sample.calm Sample.job Sample.big [])
    as (Hev & Hcount & _ & _ & Hlast).
  - discriminate.
  - reflexivity.
  - split; [exact Hev|]. split; [exact Hcount | exact Hlast].
Defined.

(** C1 as stated fails on the empty file: one call is made for it, and
    [ceil(0 / C)] is zero. *)
Lemma empty_file_is_sent_in_one_call :
  fst (uploadSingleFile Sample.calm Sample.job Sample.empty_file []) = Return tt /\
  count_uploads (snd (uploadSingleFile Sample.calm Sample.job Sample.empty_file []))
    <> Qceiling (inject_Z (size Sample.empty_file) / inject_Z chunkSize).
Proof. split; [reflexivity | discriminate]. Qed.

(* ====================================================================== *)
(** ** Order of the requests (C2) *)
(* ====================================================================== *)

(** C2.  In every run of [uploadFiles], failed or not, and whether the
    calls of the callback return or throw, the requests sent are a
    beginning of the plan: the [create_job], then for each file in the
    order of the input its chunks [0, 1, ..., total - 1] in that order,
    each once and each with the same [total_chunks], then the
    [mark_ready], all under the job identifier generated at the start.
    The run that returns has sent the whole plan, and a [mark_ready] is
    among the requests of a run only when the whole plan has been sent,
    the [mark_ready] last. *)
Theorem requests_follow_the_plan (env : environment)
    (outcome : nat -> option js_error) (files : list File)
    (email : string) :
  exists jobId,
    let plan := upload_plan jobId email files in
    let run := uploadFiles env files email (watched outcome) [] in
    fst (generateJobId env []) = Return jobId /\
    prefix (sent (snd run)) plan /\
    (forall j, fst run = Return j -> sent (snd run) = plan) /\
    (forall j, In (Ready j) (sent (snd run)) -> sent (snd run) = plan).
Proof.
  destruct (uploadFiles_outline env outcome files email)
    as (jobId & Hid & H).
  exists jobId. cbv zeta. split; [exact Hid|].
  assert (Hpre : prefix
                   (sent (snd (uploadFiles env files email
                                 (watched outcome) [])))
                   (upload_plan jobId email files)).
  { destruct (uploadFiles env files email (watched outcome) [])
      as [[j|e] tr]; cbn [snd]; unfold sent;
      rewrite <- sent_upload_outline.
    - rewrite H. apply prefix_refl.
    - destruct H as (mid & -> & Hmid). now apply prefix_filter. }
  split; [exact Hpre|]. split.
  - intros j Hj.
    destruct (uploadFiles env files email (watched outcome) [])
      as [[j'|e] tr]; cbn [fst snd] in *; [|discriminate Hj].
    unfold sent. rewrite H. apply sent_upload_outline.
  - intros j Hin. unfold upload_plan in *.
    rewrite app_comm_cons in Hpre |- *.
    apply prefix_snoc_cases in Hpre as [Heq | [rest Hrest]]; [exact Heq|].
    exfalso. apply (plan_body_not_ready jobId email files j).
    rewrite Hrest. apply in_or_app. now left.
Qed.

Lemma requests_follow_the_plan_witness :
  sent (snd (uploadFiles Sample.calm Sample.three_files Sample.email
               recorder []))
  = upload_plan Sample.job Sample.email Sample.three_files.
Proof.
  destruct (requests_follow_the_plan Sample.calm (fun _ => None)
              Sample.three_files Sample.email)
    as (jobId & Hid & _ & Hret & _).
  injection Hid as <-. exact (Hret Sample.job eq_refl).
Defined.

(* ====================================================================== *)
(** ** Progress (C3, C4) *)
(* ====================================================================== *)

(** C3, as amended.  A run of [uploadFiles] over [N] files that returns
    has reported exactly the checkpoints
    0, 10, [10 + (k/N)·80] for [k = 1 .. N], 95 and 100 in this order,
    each percentage being the double that the source computes: the
    quotient, the product and the sum each rounded to nearest.  0 comes
    before the [create_job], 10 after it, the percentage of the [k]-th
    file just before the chunks of that file are sent, 95 before the
    [mark_ready] and 100 after it. *)
Theorem progress_checkpoints (env : environment)
    (outcome : nat -> option js_error) (files : list File)
    (email jobId : string) :
  fst (uploadFiles env files email (watched outcome) []) = Return jobId ->
  exists generated,
    fst (generateJobId env []) = Return generated /\
    outline (snd (uploadFiles env files email (watched outcome) []))
      = upload_outline generated email files /\
    percents (snd (uploadFiles env files email (watched outcome) []))
      = checkpoints (List.length files).
Proof.
  intros Hret.
  destruct (uploadFiles_outline env outcome files email)
    as (generated & Hid & H).
  exists generated. split; [exact Hid|].
  destruct (uploadFiles env files email (watched outcome) []) as [[j|e] tr];
    cbn [fst snd] in *; [|discriminate Hret].
  split; [exact H|].
  unfold percents. rewrite H. apply percents_upload_outline.
Qed.

(** With three files the doubles reported for the files are
    36.666666666666664, 63.33333333333333 and 90. *)
Lemma progress_checkpoints_witness :
  outline (snd (uploadFiles Sample.calm Sample.three_files Sample.email
                  recorder []))
    = upload_outline Sample.job Sample.email Sample.three_files /\
  percents (snd (uploadFiles Sample.calm Sample.three_files Sample.email
                   recorder []))
    = [num 0; num 10;
       S754_finite false 5160374573028693 (-47);
       S754_finite false 8913374262504106 (-47);
       num 90; num 95; num 100].
Proof.
  destruct (progress_checkpoints Sample.calm (fun _ => None)
              Sample.three_files Sample.email Sample.job eq_refl)
    as (generated & Hid & Hout & Hper).
  injection Hid as <-. split; [exact Hout | exact Hper].
Defined.

(** C3 as stated fails: the percentage of a file is not reported when the
    file completes.  With one file the run reports 90 and only then sends
    the chunks of the file. *)
Lemma progress_is_reported_before_the_file :
  fst (uploadFiles Sample.calm [Sample.big] Sample.email recorder [])
    = Return Sample.job /\
  (forall jobId,
     outline (snd (uploadFiles Sample.calm [Sample.big] Sample.email
                     recorder []))
     <> upload_outline_on_completion jobId Sample.email [Sample.big]) /\
  exists before after,
    outline (snd (uploadFiles Sample.calm [Sample.big] Sample.email
                    recorder []))
    = (before ++ Reported (num 90)
         :: file_steps Sample.job Sample.big ++ after)%list.
Proof.
  split; [reflexivity|]. split.
  - intros jobId H. vm_compute in H. discriminate H.
  - exists [Reported (num 0); Created Sample.job Sample.email ["b.fq.gz"];
            Reported (num 10)],
           [Reported (num 95); Ready Sample.job; Reported (num 100)].
    reflexivity.
Qed.

(** C4.  In every run of [uploadFiles], failed or not, and whether the
    calls of the callback return or throw, the percentages passed to the
    callback, which are doubles, never go down and the first is 0; the
    run that returns has reported 100 last.  The number of files is one
    that a double holds exactly, as the length of every array is. *)
Theorem progress_is_nondecreasing (env : environment)
    (outcome : nat -> option js_error) (files : list File) (email : string) :
  Z.of_nat (List.length files) < 2 ^ 53 ->
  nondecreasing
    (percents (snd (uploadFiles env files email (watched outcome) []))) /\
  hd_error (percents (snd (uploadFiles env files email (watched outcome) [])))
    = Some (num 0) /\
  (forall jobId,
     fst (uploadFiles env files email (watched outcome) []) = Return jobId ->
     last (percents (snd (uploadFiles env files email (watched outcome) [])))
          (num 0) = num 100).
Proof.
  intros Hcount.
  destruct (uploadFiles_outline env outcome files email)
    as (generated & _ & H).
  set (sel := fun s => match s with Reported p => [p] | _ => [] end).
  assert (Hpre : exists ps,
             percents (snd (uploadFiles env files email (watched outcome) []))
               = (num 0 :: ps)%list /\
             prefix (num 0 :: ps) (checkpoints (List.length files))).
  { destruct (uploadFiles env files email (watched outcome) [])
      as [[j|e] tr]; cbn [snd]; unfold percents; fold sel.
    - rewrite H. unfold sel. rewrite percents_upload_outline.
      eexists. split; [reflexivity | apply prefix_refl].
    - destruct H as (mid & -> & Hmid).
      apply (prefix_flat_map sel) in Hmid.
      unfold sel in Hmid at 2. rewrite percents_upload_outline in Hmid.
      exists (flat_map sel mid). split; [reflexivity | exact Hmid]. }
  destruct Hpre as (ps & Hps & [rest Hrest]).
  split; [|split].
  - rewrite Hps. apply (nondecreasing_prefix _ rest). rewrite <- Hrest.
    apply checkpoints_nondecreasing. exact Hcount.
  - now rewrite Hps.
  - intros jobId Hret.
    destruct (uploadFiles env files email (watched outcome) [])
      as [[j|e] tr]; cbn [fst snd] in *; [|discriminate Hret].
    unfold percents. rewrite H, percents_upload_outline.
    apply checkpoints_last.
Qed.

Lemma progress_is_nondecreasing_witness :
  nondecreasing
    (percents (snd (uploadFiles Sample.calm Sample.three_files Sample.email
                      recorder []))) /\
  last (percents (snd (uploadFiles Sample.calm Sample.three_files
                         Sample.email recorder [])))
       (num 0) = num 100.
Proof.
  destruct (progress_is_nondecreasing Sample.calm (fun _ => None)
              Sample.three_files Sample.email eq_refl)
    as (Hmono & _ & Hlast).
  split; [exact Hmono | exact (Hlast Sample.job eq_refl)].
Defined.

(* ====================================================================== *)
(** ** Failures (C7, C8) *)
(* ====================================================================== *)

(** C7.  If the request or the file read at position [n] of a run of
    [uploadFiles] fails with message [m], then everything before it had
    succeeded, nothing follows it but the log of the error (no further
    request, no retry, no cleanup), and the run throws one error whose
    message is ['Upload failed: '] followed by [m]; for a file read [m] is
    ['Failed to read file'].  This holds whether the calls of the callback
    return or throw. *)
Theorem upload_aborts_at_first_failure (env : environment)
    (outcome : nat -> option js_error) (files : list File) (email : string)
    (n : nat) (ev : event) (m : string) :
  nth_error (snd (uploadFiles env files email (watched outcome) [])) n
    = Some ev ->
  failure_at env n ev = Some m ->
  fst (uploadFiles env files email (watched outcome) [])
    = Throw (Error ("Upload failed: " ++ m)) /\
  skipn (S n) (snd (uploadFiles env files email (watched outcome) []))
    = [EvConsoleError "Upload error:" (Error m)] /\
  all_succeeded env
    (firstn n (snd (uploadFiles env files email (watched outcome) []))).
Proof.
  intros Hn Hfail.
  pose proof (uploadFiles_aborts env outcome files email []
                (all_succeeded_nil env)) as H.
  destruct (uploadFiles env files email (watched outcome) [])
    as [[j|e] tr]; cbn [fst snd] in *.
  - rewrite (H n ev Hn) in Hfail. discriminate Hfail.
  - destruct H as [(pre & ev0 & m0 & -> & Hpre & Hev0 & ->) | Hall].
    2: { rewrite (Hall n ev Hn) in Hfail. discriminate Hfail. }
    destruct (Nat.lt_ge_cases n (List.length pre)) as [Hlt|Hge].
    { rewrite nth_error_app1 in Hn by exact Hlt.
      rewrite (Hpre n ev Hn) in Hfail. discriminate Hfail. }
    rewrite nth_error_app2 in Hn by exact Hge.
    destruct (n - List.length pre)%nat as [|[|k]] eqn:Hk; cbn in Hn.
    + injection Hn as <-. assert (n = List.length pre) as -> by lia.
      rewrite Hev0 in Hfail. injection Hfail as <-.
      split; [reflexivity|]. split.
      * rewrite skipn_app, skipn_all2 by lia.
        replace (S (List.length pre) - List.length pre)%nat with 1%nat by lia.
        reflexivity.
      * rewrite firstn_app, firstn_all, Nat.sub_diag. cbn [firstn].
        now rewrite app_nil_r.
    + injection Hn as <-. discriminate Hfail.
    + destruct k; discriminate Hn.
Qed.

Lemma upload_aborts_at_first_failure_witness :
  fst (uploadFiles Sample.flaky Sample.three_files Sample.email recorder [])
    = Throw (Error "Upload failed: Failed to fetch") /\
  skipn 14 (snd (uploadFiles Sample.flaky Sample.three_files Sample.email
                   recorder []))
    = [EvConsoleError "Upload error:" (Error "Failed to fetch")].
Proof.
  destruct (upload_aborts_at_first_failure Sample.flaky (fun _ => None)
              Sample.three_files Sample.email 13
              (EvFetch APPS_SCRIPT_URL
                 (post_init
                    (upload_file Sample.job "b.fq.gz" (Some "QUJD") 1 3)))
              "Failed to fetch" eq_refl eq_refl) as (Hthrow & Hskip & _).
  split; [exact Hthrow | exact Hskip].
Defined.

(** C8.  Each POST of an upload returns as soon as its [fetch] resolves,
    whatever the response [r]: [createJobManifest] returns [true], a chunk
    whose read loaded returns, [markJobReady] returns.  And the response
    is never read: two worlds that differ only in the responses their
    resolved requests carry give the same run of [uploadFiles], under
    every callback. *)
Theorem post_responses_are_ignored (env : environment) (r : Response)
    (jobId email : string) (fileNames : list string) (b : Blob)
    (fileName : string) (i total : Z) (tr : trace) :
  (net env (List.length tr + 2) APPS_SCRIPT_URL
       (post_init
          (create_job jobId email (toISOString (clock env (List.length tr)))
             fileNames "pending"
             (toISOString (clock env (List.length tr + 1)))))
     = Resolved r ->
   fst (createJobManifest env jobId email fileNames tr) = Return true) /\
  (forall result,
     disk env (List.length tr) b = Loaded result ->
     net env (List.length tr + 1) APPS_SCRIPT_URL
         (post_init
            (upload_file jobId fileName
               (nth_error (JsString.split "," result) 1) i total))
       = Resolved r ->
     fst (uploadFileChunk env jobId b fileName i total tr) = Return tt) /\
  (net env (List.length tr) APPS_SCRIPT_URL (post_init (mark_ready jobId))
     = Resolved r ->
   fst (markJobReady env jobId tr) = Return tt) /\
  (forall env' files progressCallback,
     same_up_to_responses env env' ->
     uploadFiles env files email progressCallback tr
     = uploadFiles env' files email progressCallback tr).
Proof.
  split; [|split; [|split]].
  - intros H. rewrite createJobManifest_run. cbv zeta.
    unfold failure_at. now rewrite H.
  - intros result Hread H. rewrite uploadFileChunk_run. cbv zeta.
    unfold failure_at. rewrite Hread. cbn [base64Data_of]. now rewrite H.
  - intros H. rewrite markJobReady_run. cbv zeta.
    unfold failure_at. now rewrite H.
  - intros env' files progressCallback Hsame. now apply uploadFiles_same.
Qed.

Lemma post_responses_are_ignored_witness :
  fst (createJobManifest Sample.complaining Sample.job Sample.email ["a.fq.gz"] [])
    = Return true /\
  fst (uploadFileChunk Sample.complaining Sample.job (whole Sample.big)
         "b.fq.gz" 0 1 []) = Return tt /\
  fst (markJobReady Sample.complaining Sample.job []) = Return tt /\
  uploadFiles Sample.complaining Sample.three_files Sample.email recorder []
    = uploadFiles Sample.calm Sample.three_files Sample.email recorder [].
Proof.
  destruct (post_responses_are_ignored Sample.complaining
              (mkResponse false (inr (JObj [("error", JStr "quota")])))
              Sample.job Sample.email ["a.fq.gz"] (whole Sample.big)
              "b.fq.gz" 0 1 []) as (Hcreate & Hchunk & Hready & Hsame).
  split; [exact (Hcreate eq_refl)|].
  split; [exact (Hchunk Sample.data_url eq_refl eq_refl)|].
  split; [exact (Hready eq_refl)|].
  apply Hsame. repeat split.
Defined.

(* ====================================================================== *)
(** ** Job identifiers (C9) *)
(* ====================================================================== *)

(** C9.  At a clock time of a four-digit year, [generateJobId] returns
    ['job_'] followed by the fifteen characters [YYYYMMDD_HHMMSS] of that
    time; and two identifiers generated at times whose seconds differ are
    distinct, in particular within one calendar minute. *)
Theorem job_id_is_compact_timestamp (env1 env2 : environment)
    (tr1 tr2 : trace) :
  let d1 := clock env1 (List.length tr1) in
  let d2 := clock env2 (List.length tr2) in
  valid_date d1 -> four_digit_year d1 ->
  valid_date d2 -> four_digit_year d2 ->
  fst (generateJobId env1 tr1) = Return ("job_" ++ compact_timestamp d1) /\
  is_compact_timestamp (compact_timestamp d1) = true /\
  (seconds d1 <> seconds d2 ->
   fst (generateJobId env1 tr1) <> fst (generateJobId env2 tr2)).
Proof.
  cbv zeta. intros Hv1 Hy1 Hv2 Hy2.
  rewrite !generateJobId_run by assumption. cbn [fst].
  split; [reflexivity|]. split; [apply compact_timestamp_shape|].
  intros Hsec Heq. apply Hsec.
  apply (f_equal (fun c => match c with
                           | Return s => substring 17 2 s
                           | Throw _ => EmptyString
                           end)) in Heq.
  unfold compact_timestamp in Heq.
  cbn [JsString.pad append substring] in Heq.
  apply (pad2_inj (seconds _) (seconds _)).
  - destruct Hv1 as (_ & _ & _ & _ & _ & Hs & _). lia.
  - destruct Hv2 as (_ & _ & _ & _ & _ & Hs & _). lia.
  - exact Heq.
Qed.

Lemma job_id_is_compact_timestamp_witness :
  fst (generateJobId Sample.calm []) = Return "job_20240307_090542" /\
  fst (generateJobId Sample.calm []) <> fst (generateJobId Sample.calm_later []).
Proof.
  assert (Hv : valid_date Sample.date) by (repeat split; discriminate).
  assert (Hw : valid_date Sample.later) by (repeat split; discriminate).
  destruct (job_id_is_compact_timestamp Sample.calm Sample.calm_later [] []
              Hv ltac:(split; discriminate) Hw ltac:(split; discriminate))
    as (Hid & _ & Hneq).
  split; [exact Hid | apply Hneq; discriminate].
Defined.

(* ====================================================================== *)
(** ** The empty upload (C10) *)
(* ====================================================================== *)

(** C10.  Called with no file and a callback that returns, and provided
    its two requests resolve, [uploadFiles] does not fail: it sends one
    [create_job] with an empty manifest and one [mark_ready], no
    [upload_file], reports 0, 10, 95 and 100, and returns the identifier
    it generated. *)
Theorem empty_upload (env : environment) (email jobId : string) :
  let create :=
    EvFetch APPS_SCRIPT_URL
      (post_init
         (create_job jobId email (toISOString (clock env 2)) [] "pending"
            (toISOString (clock env 3)))) in
  let ready := EvFetch APPS_SCRIPT_URL (post_init (mark_ready jobId)) in
  fst (generateJobId env []) = Return jobId ->
  failure_at env 4 create = None ->
  failure_at env 7 ready = None ->
  uploadFiles env [] email recorder []
  = (Return jobId,
     [EvNow; EvProgress (num 0) "Creating job..." None; EvNow; EvNow; create;
      EvProgress (num 10) "Uploading files..." None;
      EvProgress (num 95) "Finalizing upload..." None; ready;
      EvProgress (num 100) "Upload complete!" None]) /\
  sent (snd (uploadFiles env [] email recorder []))
    = [Created jobId email []; Ready jobId] /\
  count_uploads (snd (uploadFiles env [] email recorder [])) = 0 /\
  percents (snd (uploadFiles env [] email recorder []))
    = [num 0; num 10; num 95; num 100].
Proof.
  cbv zeta. intros Hid Hcreate Hready.
  assert (Hrun : uploadFiles env [] email recorder []
    = (Return jobId,
       [EvNow; EvProgress (num 0) "Creating job..." None; EvNow; EvNow;
        EvFetch APPS_SCRIPT_URL
          (post_init
             (create_job jobId email (toISOString (clock env 2)) [] "pending"
                (toISOString (clock env 3))));
        EvProgress (num 10) "Uploading files..." None;
        EvProgress (num 95) "Finalizing upload..." None;
        EvFetch APPS_SCRIPT_URL (post_init (mark_ready jobId));
        EvProgress (num 100) "Upload complete!" None])).
  { unfold uploadFiles, bind at 1.
    destruct (generateJobId_returns env []) as [generated Hgen].
    rewrite Hgen in *. injection Hid as ->.
    unfold bind at 1. rewrite recorder_run. unfold try_catch.
    unfold bind at 1. rewrite createJobManifest_run. cbv zeta.
    cbn [app List.length Nat.add map]. rewrite Hcreate.
    unfold bind at 1. rewrite recorder_run.
    unfold bind at 1.
    cbn [List.length Z.of_nat for_lt Z.to_nat iterate ret app].
    unfold bind at 1. rewrite recorder_run.
    unfold bind at 1. rewrite markJobReady_run. cbv zeta.
    cbn [app List.length]. rewrite Hready.
    reflexivity. }
  rewrite Hrun. cbn [snd]. repeat split.
Qed.

Lemma empty_upload_witness :
  uploadFiles Sample.calm [] Sample.email recorder []
  = (Return Sample.job,
     [EvNow; EvProgress (num 0) "Creating job..." None; EvNow; EvNow;
      EvFetch APPS_SCRIPT_URL
        (post_init
           (create_job Sample.job Sample.email "2024-03-07T09:05:42.123Z" []
              "pending" "2024-03-07T09:05:42.123Z"));
      EvProgress (num 10) "Uploading files..." None;
      EvProgress (num 95) "Finalizing upload..." None;
      EvFetch APPS_SCRIPT_URL (post_init (mark_ready Sample.job));
      EvProgress (num 100) "Upload complete!" None]).
Proof.
  exact (proj1 (empty_upload Sample.calm Sample.email Sample.job
                  eq_refl eq_refl eq_refl)).
Defined.

(* ====================================================================== *)
(** ** Queries (C5, C6) *)
(* ====================================================================== *)

(** C5 does not hold of [getDownloadUrl]: the first thing it does is a
    GET that carries a [Content-Type] header, where [getJobStatus] and
    [getJobResults] send theirs without any header. *)
Theorem getDownloadUrl_sends_a_header (env : environment)
    (jobId fileId : string) (tr : trace) :
  (exists rest,
     snd (getDownloadUrl env jobId fileId tr)
     = (tr ++ EvFetch
                (APPS_SCRIPT_URL ++ "?action=get_download_url&job_id=" ++ jobId
                   ++ "&file_id=" ++ fileId)
                (mkInit "GET" None [("Content-Type", "application/json")] None)
           :: rest)%list) /\
  (exists rest,
     snd (getJobStatus env jobId tr)
     = (tr ++ EvFetch (APPS_SCRIPT_URL ++ "?action=get_status&job_id=" ++ jobId)
                (mkInit "GET" None [] None) :: rest)%list) /\
  (exists rest,
     snd (getJobResults env jobId tr)
     = (tr ++ EvFetch (APPS_SCRIPT_URL ++ "?action=get_results&job_id=" ++ jobId)
                (mkInit "GET" None [] None) :: rest)%list).
Proof.
  split; [|split];
    unfold getDownloadUrl, getJobStatus, getJobResults; query_cases;
    eexists; rewrite <- ?app_assoc; reflexivity.
Qed.

(** C6, as amended.  Each of [getJobStatus], [getJobResults] and
    [getDownloadUrl] rejects exactly when its request is rejected, the
    response is not OK, the body does not parse, the parsed document is
    [null], or its [error] is truthy (an [error] that is the empty string, [0],
    [false] or [null] does not reject); the message of every rejection is
    the phase prefix followed by the underlying message; and otherwise the
    query returns the parsed document, [getDownloadUrl] its [url]. *)
Theorem queries_reject_or_return (env : environment) (jobId fileId : string)
    (tr : trace) :
  query_contract
    (net env (List.length tr)
       (APPS_SCRIPT_URL ++ "?action=get_status&job_id=" ++ jobId) get_init)
    (fst (getJobStatus env jobId tr))
    "Could not retrieve job status: " "Failed to get status" (fun data => data) /\
  query_contract
    (net env (List.length tr)
       (APPS_SCRIPT_URL ++ "?action=get_results&job_id=" ++ jobId) get_init)
    (fst (getJobResults env jobId tr))
    "Could not retrieve results: " "Failed to get results" (fun data => data) /\
  query_contract
    (net env (List.length tr)
       (APPS_SCRIPT_URL ++ "?action=get_download_url&job_id=" ++ jobId
          ++ "&file_id=" ++ fileId)
       (mkInit "GET" None [("Content-Type", "application/json")] None))
    (fst (getDownloadUrl env jobId fileId tr))
    "Could not get download URL: " "Failed to get download URL" (field "url").
Proof.
  rewrite getJobStatus_result, getJobResults_result, getDownloadUrl_result.
  repeat split; apply query_result_contract.
Qed.

Lemma queries_reject_or_return_witness :
  exists e,
    fst (getJobStatus (Sample.answering Sample.loud_error) Sample.job []) = Throw e /\
    message e = "Could not retrieve job status: Job not found".
Proof.
  destruct (queries_reject_or_return (Sample.answering Sample.loud_error)
              Sample.job "file" []) as ((_ & Hmsg & _) & _ & _).
  destruct (Hmsg (Error "Could not retrieve job status: Job not found") eq_refl)
    as (m & Hm & He).
  injection Hm as <-. eexists. split; [reflexivity | exact He].
Defined.

(** C6 as stated fails: a response whose document has an [error] field
    that is the empty string is returned, not rejected. *)
Lemma empty_error_field_is_not_rejected :
  let env := Sample.answering Sample.quiet_error in
  let o := net env 0 (APPS_SCRIPT_URL ++ "?action=get_status&job_id=" ++ Sample.job)
               get_init in
  fst (getJobStatus env Sample.job []) = Return Sample.quiet_error /\
  ~ (rejects (fst (getJobStatus env Sample.job [])) <-> rejection_as_claimed o).
Proof.
  cbv zeta. split; [reflexivity|].
  intros [_ H]. destruct H as [e He]; [|discriminate He].
  right; right. exists Sample.quiet_error. split; [|reflexivity].
  eexists. split; [reflexivity|]. split; reflexivity.
Qed.

(* ====================================================================== *)
(** ** What every event of an upload looks like *)
(* ====================================================================== *)

Section UploadEvents.

Context (env : environment) (outcome : nat -> option js_error).
Context (P : event -> Prop) (files : list File).

Hypothesis P_now : P EvNow.
Hypothesis P_checkpoint :
  forall p msg,
    In p [num 0; num 10; num 95; num 100] -> P (EvProgress p msg None).
Hypothesis P_file :
  forall i f msg,
    nth_error files i = Some f ->
    P (EvProgress (file_percent (Z.of_nat i) (Z.of_nat (List.length files)))
                  msg (Some (name f))).
Hypothesis P_post : forall d, P (EvFetch APPS_SCRIPT_URL (post_init d)).
Hypothesis P_read :
  forall f i, In f files -> 0 <= i < chunk_count f -> P (EvRead (chunk_range f i)).

Lemma keeps_bind {A B} (m : M A) (k : A -> M B) :
  triple (Forall P) m (fun _ => Forall P) (fun _ => Forall P) ->
  (forall a, triple (Forall P) (k a) (fun _ => Forall P) (fun _ => Forall P)) ->
  triple (Forall P) (bind m k) (fun _ => Forall P) (fun _ => Forall P).
Proof. intros Hm Hk. eapply triple_bind; [exact Hm | exact Hk]. Qed.

Lemma keeps_emit (ev : event) :
  P ev -> triple (Forall P) (emit ev) (fun _ => Forall P) (fun _ => Forall P).
Proof.
  intros Hev tr H. cbn. apply Forall_app. split; [exact H | now constructor].
Qed.

Lemma keeps_watched (percent : number) (msg : string)
    (file_name : option string) :
  P (EvProgress percent msg file_name) ->
  triple (Forall P) (watched outcome percent msg file_name)
         (fun _ => Forall P) (fun _ => Forall P).
Proof.
  intros Hev tr H. rewrite watched_run.
  assert (Hall : Forall P (tr ++ [EvProgress percent msg file_name]))
    by (apply Forall_app; split; [exact H | now constructor]).
  destruct (outcome (List.length tr)); exact Hall.
Qed.

Lemma keeps_createJobManifest (jobId email : string) (fileNames : list string) :
  triple (Forall P) (createJobManifest env jobId email fileNames)
         (fun _ => Forall P) (fun _ => Forall P).
Proof.
  intros tr H. rewrite createJobManifest_run. cbv zeta.
  assert (Hall : Forall P
            (tr ++ [EvNow; EvNow;
                    EvFetch APPS_SCRIPT_URL
                      (post_init
                         (create_job jobId email
                            (toISOString (clock env (List.length tr))) fileNames
                            "pending"
                            (toISOString (clock env (List.length tr + 1)))))])).
  { apply Forall_app. split; [exact H|]. repeat constructor; auto. }
  destruct (failure_at env _ _); exact Hall.
Qed.

Lemma keeps_markJobReady (jobId : string) :
  triple (Forall P) (markJobReady env jobId)
         (fun _ => Forall P) (fun _ => Forall P).
Proof.
  intros tr H. rewrite markJobReady_run. cbv zeta.
  assert (Hall : Forall P
            (tr ++ [EvFetch APPS_SCRIPT_URL (post_init (mark_ready jobId))])).
  { apply Forall_app. split; [exact H|]. repeat constructor; auto. }
  destruct (failure_at env _ _); exact Hall.
Qed.

Lemma keeps_uploadFileChunk (jobId : string) (b : Blob) (fileName : string)
    (i total : Z) :
  P (EvRead b) ->
  triple (Forall P) (uploadFileChunk env jobId b fileName i total)
         (fun _ => Forall P) (fun _ => Forall P).
Proof.
  intros Hb tr H. rewrite uploadFileChunk_run. cbv zeta.
  destruct (failure_at env _ (EvRead b)).
  - apply Forall_app. split; [exact H | repeat constructor; auto].
  - assert (Hall : Forall P
              (tr ++ [EvRead b;
                      EvFetch APPS_SCRIPT_URL
                        (post_init
                           (upload_file jobId fileName
                              (base64Data_of (disk env (List.length tr) b))
                              i total))])).
    { apply Forall_app. split; [exact H|]. repeat constructor; auto. }
    destruct (failure_at env _ _); exact Hall.
Qed.

Lemma keeps_uploadSingleFile (jobId : string) (file : File) :
  In file files ->
  triple (Forall P) (uploadSingleFile env jobId file)
         (fun _ => Forall P) (fun _ => Forall P).
Proof.
  intros Hin. unfold uploadSingleFile.
  pose proof (chunk_count_bounds file) as (Hone & Hlo & Hhi).
  destruct (size file <=? chunkSize) eqn:Hsmall.
  - apply Z.leb_le in Hsmall. apply keeps_uploadFileChunk.
    rewrite (whole_chunk _ Hsmall). apply P_read; [exact Hin | lia].
  - apply Z.leb_gt in Hsmall. rewrite <- (chunk_count_large _ Hsmall).
    apply (triple_for_lt (fun _ => Forall P)). intros k Hk.
    apply keeps_uploadFileChunk.
    rewrite (slice_chunk file (Z.of_nat k))
      by (change chunkSize with 10485760 in *; nia).
    apply P_read; [exact Hin | lia].
Qed.

(** Every event of a run of [uploadFiles] is one of those above.  When
    the first call of the callback throws, the run throws the same error
    and stops there; otherwise the run that throws has logged the error it
    caught as its last event, and nothing else. *)
Lemma uploadFiles_events_satisfy (email : string) (tr0 : trace) :
  Forall P tr0 ->
  match outcome (List.length tr0 + 1)%nat with
  | Some e0 =>
      uploadFiles env files email (watched outcome) tr0
      = (Throw e0,
         (tr0 ++ [EvNow; EvProgress (num 0) "Creating job..." None])%list)
  | None =>
      match uploadFiles env files email (watched outcome) tr0 with
      | (Return _, tr) => Forall P tr
      | (Throw e, tr) =>
          exists tr' inner,
            tr = (tr' ++ [EvConsoleError "Upload error:" inner])%list /\
            Forall P tr' /\ e = Error ("Upload failed: " ++ message inner)
      end
  end.
Proof.
  intros H0.
  destruct (outcome (List.length tr0 + 1)%nat) as [e0|] eqn:Hfirst;
    unfold uploadFiles, bind at 1;
    destruct (generateJobId_returns env tr0) as [jobId ->];
    unfold bind at 1; rewrite watched_run, length_app; cbn [List.length];
    rewrite Hfirst.
  { now rewrite <- app_assoc. }
  set (tr1 :=
         ((tr0 ++ [EvNow]) ++ [EvProgress (num 0) "Creating job..." None])%list).
  assert (H1 : Forall P tr1).
  { unfold tr1. repeat (apply Forall_app; split); auto;
      repeat constructor; auto. apply P_checkpoint. cbn. auto. }
  revert H1. generalize tr1. clear tr0 H0 tr1 Hfirst.
  apply triple_try_catch with (E1 := fun _ => Forall P).
  - apply keeps_bind; [apply keeps_createJobManifest | intros _].
    apply keeps_bind; [apply keeps_watched, P_checkpoint; cbn; auto | intros _].
    apply keeps_bind; [|intros _].
    { apply (triple_for_lt (fun _ => Forall P)). intros k Hk.
      rewrite Nat2Z.id in *.
      destruct (nth_error files k) as [file|] eqn:Hfile.
      - apply keeps_bind; [apply keeps_watched, P_file; exact Hfile | intros _].
        apply keeps_uploadSingleFile. eapply nth_error_In; exact Hfile.
      - apply nth_error_None in Hfile. lia. }
    apply keeps_bind; [apply keeps_watched, P_checkpoint; cbn; auto | intros _].
    apply keeps_bind; [apply keeps_markJobReady | intros _].
    apply keeps_bind; [apply keeps_watched, P_checkpoint; cbn; auto | intros _].
    intros tr H. exact H.
  - intros e tr H. cbn. exists tr, e. auto.
Qed.

End UploadEvents.

Lemma Forall_reads (Q : Blob -> Prop) (tr : trace) :
  Forall (fun ev => match ev with EvRead b => Q b | _ => True end) tr ->
  Forall Q (reads tr).
Proof.
  induction 1 as [|ev tr Hev _ IH]; [constructor|].
  destruct ev; cbn; auto.
Qed.

(** Every event of a run satisfies a property that holds of the events of
    the upload and of the log of an error. *)
Lemma uploadFiles_all_events (env : environment)
    (outcome : nat -> option js_error) (P : event -> Prop)
    (files : list File) (email : string) :
  P EvNow ->
  (forall p msg,
     In p [num 0; num 10; num 95; num 100] -> P (EvProgress p msg None)) ->
  (forall i f msg,
     nth_error files i = Some f ->
     P (EvProgress (file_percent (Z.of_nat i) (Z.of_nat (List.length files)))
                   msg (Some (name f)))) ->
  (forall d, P (EvFetch APPS_SCRIPT_URL (post_init d))) ->
  (forall f i, In f files -> 0 <= i < chunk_count f ->
               P (EvRead (chunk_range f i))) ->
  (forall label e, P (EvConsoleError label e)) ->
  Forall P (snd (uploadFiles env files email (watched outcome) [])).
Proof.
  intros H1 H2 H3 H4 H5 H6.
  pose proof (uploadFiles_events_satisfy env outcome P files H1 H2 H3 H4 H5
                email [] (Forall_nil P)) as H.
  cbn [List.length Nat.add] in H.
  destruct (outcome 1%nat) as [e0|].
  { rewrite H. cbn [snd app]. repeat constructor; auto.
    apply H2. cbn. auto. }
  destruct (uploadFiles env files email (watched outcome) []) as [[j|e] tr];
    cbn [snd]; [exact H|].
  destruct H as (tr' & inner & -> & Htr' & _).
  apply Forall_app. split; [exact Htr' | repeat constructor; auto].
Qed.

Lemma file_percent_range (i N : Z) :
  0 <= i < N -> N < 2 ^ 53 ->
  Double.ltb (num 10) (file_percent i N) = true /\
  Double.leb (file_percent i N) (num 90) = true.
Proof.
  intros Hi HN. change (file_percent i N) with (kth_percent (i + 1) N).
  apply kth_percent_range; lia.
Qed.

(* ====================================================================== *)
(** ** Further properties of the upload *)
(* ====================================================================== *)

(** X1.  In every run of [uploadFiles], failed or not, and whether the
    calls of the callback return or throw, each blob handed to the file
    reader is a range of one of the given files that starts at a
    non-negative offset and holds at most [chunkSize] (10 MiB) bytes: a
    large file is never read into memory in one piece. *)
Theorem reads_are_chunk_sized (env : environment)
    (outcome : nat -> option js_error) (files : list File)
    (email : string) :
  Forall (fun b => In (source b) files /\ 0 <= lo b /\ blob_size b <= chunkSize)
         (reads (snd (uploadFiles env files email (watched outcome) []))).
Proof.
  apply Forall_reads.
  apply uploadFiles_all_events; try exact I; try (intros; exact I).
  intros f i Hin Hi. unfold chunk_range, blob_size. cbn [source lo hi].
  change chunkSize with 10485760. split; [exact Hin | lia].
Qed.

(** X2.  Every request of a run of [uploadFiles], failed or not, and
    whether the calls of the callback return or throw, is a POST to
    [APPS_SCRIPT_URL] in [no-cors] mode with a JSON content type and a
    body: the upload never issues a GET and never talks to another URL. *)
Theorem upload_requests_are_posts (env : environment)
    (outcome : nat -> option js_error) (files : list File)
    (email url : string) (init : fetch_init) :
  In (EvFetch url init)
     (snd (uploadFiles env files email (watched outcome) [])) ->
  is_upload_post url init.
Proof.
  intros Hin.
  pose proof (uploadFiles_all_events env outcome
    (fun ev => match ev with
               | EvFetch u i => is_upload_post u i
               | _ => True
               end) files email) as H.
  rewrite Forall_forall in H.
  apply (H I) with (x := EvFetch url init); try (intros; exact I); [|exact Hin].
  intros d. unfold is_upload_post, post_init. cbn. repeat split. discriminate.
Qed.

Lemma upload_requests_are_posts_witness :
  is_upload_post APPS_SCRIPT_URL (post_init (mark_ready Sample.job)).
Proof.
  apply (upload_requests_are_posts Sample.calm (fun _ => None)
           Sample.three_files Sample.email).
  vm_compute. do 20 right. left. reflexivity.
Defined.


(** X4.  In every run of [uploadFiles], failed or not, and whether the
    calls of the callback return or throw, a percentage that is reported
    with a file name is a double above 10 and not above 90, and the name
    is that of one of the given files; a percentage reported without a
    name is 0, 10, 95 or 100.  The number of files is one that a double
    holds exactly. *)
Theorem file_progress_stays_in_range (env : environment)
    (outcome : nat -> option js_error) (files : list File)
    (email : string) (p : number) (msg : string) (shown : option string) :
  Z.of_nat (List.length files) < 2 ^ 53 ->
  In (EvProgress p msg shown)
     (snd (uploadFiles env files email (watched outcome) [])) ->
  match shown with
  | Some n =>
      Double.ltb (num 10) p = true /\ Double.leb p (num 90) = true /\
      In n (map name files)
  | None => In p [num 0; num 10; num 95; num 100]
  end.
Proof.
  intros Hcount Hin.
  pose proof (uploadFiles_all_events env outcome
    (fun ev => match ev with
               | EvProgress q _ (Some n) =>
                   Double.ltb (num 10) q = true /\
                   Double.leb q (num 90) = true /\ In n (map name files)
               | EvProgress q _ None => In q [num 0; num 10; num 95; num 100]
               | _ => True
               end) files email) as H.
  rewrite Forall_forall in H.
  apply (H I) with (x := EvProgress p msg shown);
    try (intros; exact I); try exact Hin.
  - intros q m Hq. exact Hq.
  - intros i f m Hf.
    assert (Hi : (i < List.length files)%nat)
      by (apply nth_error_Some; rewrite Hf; discriminate).
    destruct (file_percent_range (Z.of_nat i) (Z.of_nat (List.length files)))
      as [Hlo Hhi]; [lia | exact Hcount |].
    split; [exact Hlo|]. split; [exact Hhi|].
    apply in_map. eapply nth_error_In; exact Hf.
Qed.

(** The second of three files is reported at 63.33333333333333. *)
Lemma file_progress_stays_in_range_witness :
  Double.ltb (num 10) (S754_finite false 8913374262504106 (-47)) = true /\
  Double.leb (S754_finite false 8913374262504106 (-47)) (num 90) = true /\
  In "b.fq.gz" (map name Sample.three_files).
Proof.
  apply (file_progress_stays_in_range Sample.calm (fun _ => None)
           Sample.three_files Sample.email
           (S754_finite false 8913374262504106 (-47))
           "Uploading file 2 of 3..." (Some "b.fq.gz")).
  - reflexivity.
  - vm_compute. do 9 right. left. reflexivity.
Defined.

(* ====================================================================== *)
(** ** The chunks of a file lie end to end *)
(* ====================================================================== *)

Section Tiling.

Context (env : environment) (jobId : string) (f : File).

Lemma reads_chunk_events (base : nat) (l : list nat) :
  reads (flat_map (chunk_events env jobId f base) l)
  = map (fun i => chunk_range f (Z.of_nat i)) l.
Proof.
  induction l as [|i l IH]; [reflexivity|].
  cbn [flat_map map]. unfold reads in *. rewrite flat_map_app, IH. reflexivity.
Qed.

Lemma tiles_chunk_ranges (s k : nat) :
  0 <= size f -> (s + k)%nat = Z.to_nat (chunk_count f) ->
  tiles (Z.min (Z.of_nat s * chunkSize) (size f))
        (map (fun i => chunk_range f (Z.of_nat i)) (seq s k)) (size f).
Proof.
  intros Hsize. pose proof (chunk_count_bounds f) as (Hone & Hlo & Hhi).
  change chunkSize with 10485760 in *.
  revert s. induction k as [|k IH]; intros s Hs; cbn [seq map tiles].
  - assert (Z.of_nat s = chunk_count f) as -> by lia. lia.
  - assert (Hstart : Z.of_nat s * 10485760 <= size f) by nia.
    split.
    + unfold chunk_range. cbn [lo]. change chunkSize with 10485760. lia.
    + specialize (IH (S s) ltac:(lia)).
      unfold chunk_range at 1. cbn [hi]. change chunkSize with 10485760.
      replace (Z.of_nat s + 1) with (Z.of_nat (S s)) by lia. exact IH.
Qed.

Lemma chunk_range_sizes (k : nat) :
  0 <= size f -> (k <= Z.to_nat (chunk_count f))%nat ->
  Forall (fun b => source b = f /\ blob_size b <= chunkSize /\
                   (1 <= size f -> 1 <= blob_size b))
         (map (fun i => chunk_range f (Z.of_nat i)) (seq 0 k)).
Proof.
  intros Hsize Hk. pose proof (chunk_count_bounds f) as (Hone & Hlo & Hhi).
  apply Forall_forall. intros b Hb.
  apply in_map_iff in Hb as (i & <- & Hi). apply in_seq in Hi.
  unfold chunk_range, blob_size. cbn [source lo hi].
  change chunkSize with 10485760 in *.
  split; [reflexivity|]. split; [lia|]. intros Hpos. nia.
Qed.

End Tiling.

(** X5.  When [uploadSingleFile] returns for a file of [S >= 0] bytes, the
    blobs it has read lie end to end from offset 0 to offset [S]: every
    byte of the file is read exactly once, in order.  Each blob is a range
    of that file of at most [chunkSize] bytes, and none is empty unless
    the file is. *)
Theorem chunks_tile_the_file (env : environment) (jobId : string) (f : File)
    (tr0 : trace) :
  0 <= size f ->
  fst (uploadSingleFile env jobId f tr0) = Return tt ->
  exists evs,
    snd (uploadSingleFile env jobId f tr0) = (tr0 ++ evs)%list /\
    tiles 0 (reads evs) (size f) /\
    Forall (fun b => source b = f /\ blob_size b <= chunkSize /\
                     (1 <= size f -> 1 <= blob_size b))
           (reads evs).
Proof.
  intros Hsize Hret.
  pose proof (uploadSingleFile_events env jobId f tr0 tr0 eq_refl) as Hev.
  destruct (uploadSingleFile env jobId f tr0) as [[u|e] tr];
    cbn [fst snd] in *; [|discriminate Hret].
  exists (file_events env jobId f (List.length tr0)). split; [exact Hev|].
  unfold file_events. rewrite reads_chunk_events. split.
  - pose proof (tiles_chunk_ranges f 0 _ Hsize eq_refl) as H.
    cbn [Z.of_nat Z.mul] in H. rewrite Z.min_l in H by exact Hsize. exact H.
  - apply chunk_range_sizes; [exact Hsize | lia].
Qed.

Lemma chunks_tile_the_file_witness :
  exists evs,
    snd (uploadSingleFile Sample.calm Sample.job Sample.big []) = evs /\
    tiles 0 (reads evs) (25 * Sample.MiB).
Proof.
  destruct (chunks_tile_the_file Sample.calm Sample.job Sample.big [])
    as (evs & Hev & Htiles & _).
  - discriminate.
  - reflexivity.
  - exists evs. split; [exact Hev | exact Htiles].
Defined.

(* ====================================================================== *)
(** ** The identifier returned and the number of requests *)
(* ====================================================================== *)

Lemma triple_any {A} (P : trace -> Prop) (m : M A) :
  triple P m (fun _ _ => True) (fun _ _ => True).
Proof. intros tr _. destruct (m tr) as [[a|e] tr']; exact I. Qed.

Lemma uploadFiles_returns_generated (env : environment) (files : list File)
    (email : string) (progressCallback : callback) (tr0 : trace)
    (j : string) :
  fst (uploadFiles env files email progressCallback tr0) = Return j ->
  fst (generateJobId env tr0) = Return j.
Proof.
  unfold uploadFiles, bind at 1.
  destruct (generateJobId_returns env tr0) as [jobId ->]. cbn [fst].
  match goal with
  | |- fst (?m ?t) = _ -> _ =>
      assert (H : triple (fun _ => True) m
                    (fun a _ => a = jobId) (fun _ _ => True));
      [|specialize (H t I); destruct (m t) as [[a|e] tr'];
        cbn [fst]; [intros [= <-]; now rewrite H | discriminate]]
  end.
  eapply triple_bind; [apply triple_any | intros ?; cbv beta].
  apply triple_try_catch with (E1 := fun _ _ => True).
  - repeat (eapply triple_bind; [apply triple_any | intros ?; cbv beta]).
    intros tr _. reflexivity.
  - intros e tr _. exact I.
Qed.

Lemma sent_is_prefix_of_plan (env : environment)
    (outcome : nat -> option js_error) (files : list File)
    (email : string) :
  exists jobId,
    fst (generateJobId env []) = Return jobId /\
    prefix (sent (snd (uploadFiles env files email (watched outcome) [])))
           (upload_plan jobId email files) /\
    (forall j,
       fst (uploadFiles env files email (watched outcome) []) = Return j ->
       sent (snd (uploadFiles env files email (watched outcome) []))
       = upload_plan jobId email files).
Proof.
  destruct (uploadFiles_outline env outcome files email)
    as (jobId & Hid & H).
  exists jobId. split; [exact Hid|].
  destruct (uploadFiles env files email (watched outcome) [])
    as [[j|e] tr]; cbn [fst snd]; unfold sent;
    rewrite <- sent_upload_outline.
  - rewrite H. split; [apply prefix_refl | reflexivity].
  - destruct H as (mid & -> & Hmid). split; [now apply prefix_filter|].
    intros j [=].
Qed.

(** X6.  A run of [uploadFiles] that returns [j] has generated [j] at its
    start and has sent it in every request: the requests are the plan of
    the upload under [j]. *)
Theorem returned_id_is_the_one_sent (env : environment)
    (outcome : nat -> option js_error) (files : list File)
    (email j : string) :
  fst (uploadFiles env files email (watched outcome) []) = Return j ->
  fst (generateJobId env []) = Return j /\
  sent (snd (uploadFiles env files email (watched outcome) []))
  = upload_plan j email files.
Proof.
  intros Hret.
  pose proof (uploadFiles_returns_generated env files email _ [] j Hret)
    as Hgen.
  split; [exact Hgen|].
  destruct (sent_is_prefix_of_plan env outcome files email)
    as (jobId & Hid & _ & Hall).
  rewrite Hgen in Hid. injection Hid as <-. exact (Hall j Hret).
Qed.

Lemma returned_id_is_the_one_sent_witness :
  sent (snd (uploadFiles Sample.calm [Sample.big] Sample.email recorder []))
  = [Created Sample.job Sample.email ["b.fq.gz"];
     Chunk Sample.job "b.fq.gz" 0 3; Chunk Sample.job "b.fq.gz" 1 3;
     Chunk Sample.job "b.fq.gz" 2 3; Ready Sample.job].
Proof.
  exact (proj2 (returned_id_is_the_one_sent Sample.calm (fun _ => None)
                  [Sample.big] Sample.email Sample.job eq_refl)).
Defined.

Lemma length_file_steps (jobId : string) (f : File) :
  Z.of_nat (List.length (file_steps jobId f)) = chunk_count f.
Proof.
  unfold file_steps. rewrite length_map, length_seq.
  pose proof (chunk_count_bounds f). lia.
Qed.

Lemma length_upload_plan (jobId email : string) (files : list File) :
  Z.of_nat (List.length (upload_plan jobId email files))
  = 2 + total_chunks_of files.
Proof.
  unfold upload_plan. cbn [List.length]. rewrite length_app. cbn [List.length].
  assert (H : Z.of_nat (List.length (flat_map (file_steps jobId) files))
              = total_chunks_of files).
  { induction files as [|f files IH]; [reflexivity|].
    cbn [flat_map total_chunks_of fold_right]. rewrite length_app.
    fold (total_chunks_of files).
    rewrite Nat2Z.inj_add, IH, length_file_steps. reflexivity. }
  lia.
Qed.

Lemma total_chunks_within_limits (files : list File) :
  Forall (fun f => 0 <= size f <= CONFIG.MAX_FILE_SIZE) files ->
  total_chunks_of files <= 512 * Z.of_nat (List.length files).
Proof.
  induction 1 as [|f files Hf _ IH]; [cbn; lia|].
  cbn [total_chunks_of fold_right List.length]. fold (total_chunks_of files).
  pose proof (chunk_count_bounds f) as (Hone & Hlo & Hhi).
  change CONFIG.MAX_FILE_SIZE with 5368709120 in Hf.
  change chunkSize with 10485760 in *. lia.
Qed.

(** X7.  A run of [uploadFiles] that returns has sent exactly two requests
    plus one per chunk of every file.  For a job within the limits of
    [CONFIG] (at most 20 files of at most 5 GiB) no run, failed or not,
    and whether the calls of the callback return or throw, sends more
    than 10242 requests. *)
Theorem request_count (env : environment)
    (outcome : nat -> option js_error) (files : list File) (email : string) :
  (forall j,
     fst (uploadFiles env files email (watched outcome) []) = Return j ->
     Z.of_nat (List.length
                 (sent (snd (uploadFiles env files email
                               (watched outcome) []))))
     = 2 + total_chunks_of files) /\
  (within_limits files ->
   Z.of_nat (List.length
               (sent (snd (uploadFiles env files email
                             (watched outcome) []))))
   <= 10242).
Proof.
  destruct (sent_is_prefix_of_plan env outcome files email)
    as (jobId & _ & [rest Hpre] & Hall).
  split.
  - intros j Hret. rewrite (Hall j Hret). apply length_upload_plan.
  - intros [Hcount Hsizes].
    pose proof (length_upload_plan jobId email files) as Hlen.
    rewrite Hpre, length_app in Hlen.
    pose proof (total_chunks_within_limits files Hsizes).
    change CONFIG.MAX_FILES_PER_JOB with 20 in Hcount. lia.
Qed.

Lemma request_count_witness :
  Z.of_nat (List.length
              (sent (snd (uploadFiles Sample.calm Sample.three_files
                            Sample.email recorder [])))) = 7 /\
  Z.of_nat (List.length
              (sent (snd (uploadFiles Sample.flaky Sample.three_files
                            Sample.email recorder [])))) <= 10242.
Proof.
  split.
  - exact (proj1 (request_count Sample.calm (fun _ => None)
                    Sample.three_files Sample.email)
                 Sample.job eq_refl).
  - apply (proj2 (request_count Sample.flaky (fun _ => None)
                    Sample.three_files Sample.email)).
    split; [discriminate|]. repeat constructor; discriminate.
Defined.

(* ====================================================================== *)
(** ** Identifiers and seconds *)
(* ====================================================================== *)

Lemma pad4_inj (a b : Z) :
  0 <= a < 10000 -> 0 <= b < 10000 ->
  JsString.pad 4 a = JsString.pad 4 b -> a = b.
Proof.
  intros Ha Hb H. cbn [JsString.pad append] in H.
  injection H as H3 H2 H1 H0.
  apply digit_inj in H3, H2, H1, H0.
  revert H3 H2 H1 H0. Z.div_mod_to_equations. lia.
Qed.

Lemma compact_timestamp_inj (d1 d2 : Date) :
  valid_date d1 -> four_digit_year d1 ->
  valid_date d2 -> four_digit_year d2 ->
  compact_timestamp d1 = compact_timestamp d2 -> same_second d1 d2.
Proof.
  intros (_ & Hm1 & Hd1 & Hh1 & Hi1 & Hs1 & _) Hy1
         (_ & Hm2 & Hd2 & Hh2 & Hi2 & Hs2 & _) Hy2 H.
  unfold four_digit_year in *.
  pose proof (f_equal (substring 0 4) H) as Hy.
  pose proof (f_equal (substring 4 2) H) as Hm.
  pose proof (f_equal (substring 6 2) H) as Hd.
  pose proof (f_equal (substring 9 2) H) as Hh.
  pose proof (f_equal (substring 11 2) H) as Hi.
  pose proof (f_equal (substring 13 2) H) as Hs.
  unfold compact_timestamp in Hy, Hm, Hd, Hh, Hi, Hs.
  cbn [JsString.pad append substring] in Hy, Hm, Hd, Hh, Hi, Hs.
  repeat split.
  - apply pad4_inj; [lia | lia | exact Hy].
  - apply pad2_inj; [lia | lia | exact Hm].
  - apply pad2_inj; [lia | lia | exact Hd].
  - apply pad2_inj; [lia | lia | exact Hh].
  - apply pad2_inj; [lia | lia | exact Hi].
  - apply pad2_inj; [lia | lia | exact Hs].
Qed.

(** X8.  For clock times of a four-digit year, two calls of
    [generateJobId] return the same identifier exactly when their times
    fall in the same second: the milliseconds are dropped, so two uploads
    started within one second share their identifier, and an identifier
    determines the second it was made in. *)
Theorem same_id_iff_same_second (env1 env2 : environment) (tr1 tr2 : trace) :
  let d1 := clock env1 (List.length tr1) in
  let d2 := clock env2 (List.length tr2) in
  valid_date d1 -> four_digit_year d1 ->
  valid_date d2 -> four_digit_year d2 ->
  (fst (generateJobId env1 tr1) = fst (generateJobId env2 tr2)
   <-> same_second d1 d2).
Proof.
  cbv zeta. intros Hv1 Hy1 Hv2 Hy2.
  rewrite !generateJobId_run by assumption. cbn [fst]. split.
  - intros H. apply compact_timestamp_inj; try assumption.
    apply (f_equal (fun c => match c with
                             | Return s => substring 4 15 s
                             | Throw _ => EmptyString
                             end)) in H.
    unfold compact_timestamp in *.
    cbn [JsString.pad append substring] in *. exact H.
  - intros (Hy & Hm & Hd & Hh & Hi & Hs). unfold compact_timestamp.
    now rewrite Hy, Hm, Hd, Hh, Hi, Hs.
Qed.

Lemma same_id_iff_same_second_witness :
  fst (generateJobId Sample.calm []) =
  fst (generateJobId MoreSamples.calm_same_second []).
Proof.
  assert (Hv : valid_date Sample.date) by (repeat split; discriminate).
  assert (Hw : valid_date (mkDate 2024 3 7 9 5 42 987))
    by (repeat split; discriminate).
  apply (same_id_iff_same_second Sample.calm MoreSamples.calm_same_second [] []
           Hv ltac:(split; discriminate) Hw ltac:(split; discriminate)).
  repeat split.
Defined.

(* ====================================================================== *)
(** ** Further properties of the queries *)
(* ====================================================================== *)

(** X9.  Each query makes exactly one request.  When it returns, that
    request is the only event; when it throws, the request is followed by
    one entry of [console.error] with the error caught, whose message
    follows the phase prefix in the error thrown.  No query retries. *)
Theorem queries_make_one_request (env : environment) (jobId fileId : string)
    (tr : trace) :
  (let req := EvFetch (APPS_SCRIPT_URL ++ "?action=get_status&job_id=" ++ jobId)
                      get_init in
   match getJobStatus env jobId tr with
   | (Return _, tr') => tr' = (tr ++ [req])%list
   | (Throw e, tr') =>
       exists inner,
         tr' = (tr ++ [req; EvConsoleError "Status check error:" inner])%list /\
         e = Error ("Could not retrieve job status: " ++ message inner)
   end) /\
  (let req := EvFetch (APPS_SCRIPT_URL ++ "?action=get_results&job_id=" ++ jobId)
                      get_init in
   match getJobResults env jobId tr with
   | (Return _, tr') => tr' = (tr ++ [req])%list
   | (Throw e, tr') =>
       exists inner,
         tr' = (tr ++ [req; EvConsoleError "Results retrieval error:" inner])%list /\
         e = Error ("Could not retrieve results: " ++ message inner)
   end) /\
  (let req :=
     EvFetch (APPS_SCRIPT_URL ++ "?action=get_download_url&job_id=" ++ jobId
                ++ "&file_id=" ++ fileId)
             (mkInit "GET" None [("Content-Type", "application/json")] None) in
   match getDownloadUrl env jobId fileId tr with
   | (Return _, tr') => tr' = (tr ++ [req])%list
   | (Throw e, tr') =>
       exists inner,
         tr' = (tr ++ [req; EvConsoleError "Download URL error:" inner])%list /\
         e = Error ("Could not get download URL: " ++ message inner)
   end).
Proof.
  cbv zeta. split; [|split];
    unfold getDownloadUrl, getJobStatus, getJobResults; query_cases;
    try reflexivity;
    eexists; rewrite <- ?app_assoc; split; reflexivity.
Qed.

(** X10.  [getDownloadUrl] does not check that the document it receives
    has a [url]: for a document that is not [null], whose [error] is not
    truthy and that has no [url] property (any document that is not an
    object among them), it returns [undefined] and does not reject. *)
Theorem download_url_may_be_undefined (env : environment)
    (jobId fileId : string) (tr : trace) (data : json) :
  net env (List.length tr)
      (APPS_SCRIPT_URL ++ "?action=get_download_url&job_id=" ++ jobId
         ++ "&file_id=" ++ fileId)
      (mkInit "GET" None [("Content-Type", "application/json")] None)
    = Resolved (mkResponse true (inr data)) ->
  data <> JNull ->
  truthy (field "error" data) = false ->
  field "url" data = None ->
  fst (getDownloadUrl env jobId fileId tr) = Return None.
Proof.
  intros Hnet Hnull Herr Hurl.
  rewrite getDownloadUrl_result, Hnet.
  unfold query_result, underlying_message. cbn [ok json_body].
  destruct data as [|b|n|s|items|props]; cbn [field] in *;
    [now contradiction Hnull | reflexivity | reflexivity | reflexivity
    | reflexivity |].
  destruct (assoc "error" props) as [v|]; [rewrite Herr|]; now rewrite Hurl.
Qed.

Lemma download_url_may_be_undefined_witness :
  fst (getDownloadUrl (Sample.answering MoreSamples.no_url) Sample.job "f1" [])
  = Return None.
Proof.
  apply (download_url_may_be_undefined (Sample.answering MoreSamples.no_url)
           Sample.job "f1" [] MoreSamples.no_url eq_refl);
    [discriminate | reflexivity | reflexivity].
Defined.

(* ====================================================================== *)
(** ** The payload of a chunk *)
(* ====================================================================== *)

Lemma split_without_separator (c : ascii) (s : string) :
  JsText.occurs c s = false -> JsString.split c s = [s].
Proof.
  induction s as [|a s IH]; cbn [JsText.occurs JsString.split]; [reflexivity|].
  intros H. apply Bool.orb_false_iff in H as [Ha Hs].
  rewrite Ha, (IH Hs). reflexivity.
Qed.

Lemma split_at_first_separator (c : ascii) (h rest : string) :
  JsText.occurs c h = false ->
  JsString.split c (h ++ String c rest) = h :: JsString.split c rest.
Proof.
  induction h as [|a h IH]; cbn [JsText.occurs JsString.split append].
  - intros _. now rewrite Ascii.eqb_refl.
  - intros H. apply Bool.orb_false_iff in H as [Ha Hh].
    rewrite Ha, (IH Hh). reflexivity.
Qed.

(** X11.  When the reader loads a data URL made of a header without comma,
    a comma and a payload without comma, [uploadFileChunk] posts exactly
    that payload as [file_data], whatever the outcome of the request. *)
Theorem chunk_payload_follows_the_comma (env : environment) (jobId : string)
    (b : Blob) (fileName : string) (i total : Z) (tr : trace)
    (header payload : string) :
  disk env (List.length tr) b = Loaded (header ++ "," ++ payload) ->
  JsText.occurs "," header = false ->
  JsText.occurs "," payload = false ->
  snd (uploadFileChunk env jobId b fileName i total tr)
  = (tr ++ [EvRead b;
            EvFetch APPS_SCRIPT_URL
              (post_init
                 (upload_file jobId fileName (Some payload) i total))])%list.
Proof.
  intros Hread Hheader Hpayload.
  rewrite uploadFileChunk_run. cbv zeta.
  unfold failure_at at 1. rewrite Hread. cbn [base64Data_of].
  change ("," ++ payload) with (String "," payload).
  rewrite (split_at_first_separator _ _ _ Hheader),
    (split_without_separator _ _ Hpayload).
  cbn [nth_error]. now destruct (failure_at env _ _).
Qed.

Lemma chunk_payload_follows_the_comma_witness :
  snd (uploadFileChunk Sample.calm Sample.job (whole Sample.big) "b.fq.gz" 0 1 [])
  = [EvRead (whole Sample.big);
     EvFetch APPS_SCRIPT_URL
       (post_init (upload_file Sample.job "b.fq.gz" (Some "QUJD") 0 1))].
Proof.
  exact (chunk_payload_follows_the_comma Sample.calm Sample.job
           (whole Sample.big) "b.fq.gz" 0 1 []
           "data:application/octet-stream;base64" "QUJD"
           eq_refl eq_refl eq_refl).
Defined.

(** X12.  When the reader loads a string without any comma,
    [uploadFileChunk] does not fail on it: it posts the chunk with an
    undefined [file_data], and returns if that request resolves. *)
Theorem chunk_without_comma_is_sent_empty (env : environment) (jobId : string)
    (b : Blob) (fileName : string) (i total : Z) (tr : trace)
    (result : string) (r : Response) :
  disk env (List.length tr) b = Loaded result ->
  JsText.occurs "," result = false ->
  net env (List.length tr + 1) APPS_SCRIPT_URL
      (post_init (upload_file jobId fileName None i total)) = Resolved r ->
  uploadFileChunk env jobId b fileName i total tr
  = (Return tt,
     (tr ++ [EvRead b;
             EvFetch APPS_SCRIPT_URL
               (post_init (upload_file jobId fileName None i total))])%list).
Proof.
  intros Hread Hnone Hnet.
  rewrite uploadFileChunk_run. cbv zeta.
  unfold failure_at. rewrite Hread. cbn [base64Data_of].
  rewrite (split_without_separator _ _ Hnone). cbn [nth_error].
  now rewrite Hnet.
Qed.

Lemma chunk_without_comma_is_sent_empty_witness :
  uploadFileChunk MoreSamples.bare Sample.job (whole Sample.empty_file)
    "empty.fq.gz" 0 1 []
  = (Return tt,
     [EvRead (whole Sample.empty_file);
      EvFetch APPS_SCRIPT_URL
        (post_init (upload_file Sample.job "empty.fq.gz" None 0 1))]).
Proof.
  exact (chunk_without_comma_is_sent_empty MoreSamples.bare Sample.job
           (whole Sample.empty_file) "empty.fq.gz" 0 1 [] "data:"
           Sample.opaque eq_refl eq_refl eq_refl).
Defined.

(* ====================================================================== *)
(** ** File names *)
(* ====================================================================== *)

Section FileNames.

Import JsText.

Lemma strlen_app (s t : string) :
  String.length (s ++ t) = (String.length s + String.length t)%nat.
Proof. induction s as [|a s IH]; cbn; [reflexivity | now rewrite IH]. Qed.

Lemma substring_whole (s : string) : substring 0 (String.length s) s = s.
Proof. induction s as [|a s IH]; cbn; [reflexivity | now rewrite IH]. Qed.

Lemma substring_after (stem suffix : string) :
  substring (String.length stem) (String.length suffix) (stem ++ suffix) = suffix.
Proof.
  induction stem as [|a stem IH]; cbn [String.length append substring].
  - apply substring_whole.
  - exact IH.
Qed.

Lemma substring_cut (k : nat) (s : string) :
  (k <= String.length s)%nat ->
  s = substring 0 k s ++ substring k (String.length s - k) s.
Proof.
  revert k. induction s as [|a s IH]; intros k Hk.
  - cbn in Hk. assert (k = 0)%nat as -> by lia. reflexivity.
  - destruct k as [|k].
    + cbn [substring append String.length Nat.sub].
      now rewrite substring_whole.
    + cbn [substring append String.length Nat.sub]. f_equal.
      apply IH. cbn in Hk. lia.
Qed.

Lemma endsWith_iff (s suffix : string) :
  endsWith s suffix = true <-> exists stem, s = stem ++ suffix.
Proof.
  unfold endsWith. split.
  - intros H. apply Bool.andb_true_iff in H as [Hlen Heq].
    apply Nat.leb_le in Hlen. apply String.eqb_eq in Heq.
    exists (substring 0 (String.length s - String.length suffix) s).
    remember (String.length suffix) as m eqn:Hm.
    pose proof (substring_cut (String.length s - m) s ltac:(lia)) as Hcut.
    replace (String.length s - (String.length s - m))%nat with m in Hcut by lia.
    rewrite Heq in Hcut. exact Hcut.
  - intros [stem ->]. rewrite strlen_app. apply Bool.andb_true_iff. split.
    + apply Nat.leb_le. lia.
    + apply String.eqb_eq.
      replace (String.length stem + String.length suffix - String.length suffix)%nat
        with (String.length stem) by lia.
      apply substring_after.
Qed.

Lemma toLowerCase_app (s t : string) :
  toLowerCase (s ++ t) = toLowerCase s ++ toLowerCase t.
Proof. induction s as [|a s IH]; cbn; [reflexivity | now rewrite IH]. Qed.

End FileNames.

(** X13.  [isValidFastqFile] accepts a file exactly when its name, put in
    lower case, ends with one of the extensions of
    [CONFIG.ALLOWED_EXTENSIONS] ([.fq.gz], [.fastq.gz]); the size of the
    file plays no part. *)
Theorem valid_fastq_names (file : File) :
  isValidFastqFile file = true <->
  exists ext stem,
    In ext CONFIG.ALLOWED_EXTENSIONS /\
    JsText.toLowerCase (name file) = stem ++ ext.
Proof.
  unfold isValidFastqFile. cbv zeta. rewrite existsb_exists. split.
  - intros (ext & Hin & Hends). apply endsWith_iff in Hends as [stem Hstem].
    exists ext, stem. split; [exact Hin | exact Hstem].
  - intros (ext & stem & Hin & Hstem). exists ext. split; [exact Hin|].
    apply endsWith_iff. now exists stem.
Qed.

(** X14.  [isValidFastqFile] does not look at the case of the name: a name
    made of any stem followed by an extension that is [.fq.gz] or
    [.fastq.gz] once in lower case ([.FQ.GZ], [.Fastq.gz], ...) is
    accepted. *)
Theorem valid_fastq_any_case (stem ext : string) (bytes : Z) :
  In (JsText.toLowerCase ext) CONFIG.ALLOWED_EXTENSIONS ->
  isValidFastqFile (mkFile (stem ++ ext) bytes) = true.
Proof.
  intros Hin. unfold isValidFastqFile. cbv zeta. apply existsb_exists.
  exists (JsText.toLowerCase ext). split; [exact Hin|].
  apply endsWith_iff. exists (JsText.toLowerCase stem).
  cbn [name]. apply toLowerCase_app.
Qed.

Lemma valid_fastq_any_case_witness :
  isValidFastqFile (mkFile "Sample_R1.FASTQ.GZ" 0) = true.
Proof.
  apply (valid_fastq_any_case "Sample_R1" ".FASTQ.GZ" 0).
  right. left. reflexivity.
Defined.
(* ====================================================================== *)
(** ** The callback and the last percentage *)
(* ====================================================================== *)

Lemma canon_inj (f g : number) (v w : Q) :
  canon f v -> canon g w -> (v == w)%Q -> f = g.
Proof.
  intros (p1 & e1 & -> & D1 & _ & Hv) (p2 & e2 & -> & D2 & _ & Hw) E.
  destruct (canon_binade p1 e1 D1) as [A1 A2].
  destruct (canon_binade p2 e2 D2) as [B1 B2].
  assert (He : 53 + e1 = 53 + e2).
  { apply (binade_unique (val (Zpos p1) e1)); try assumption; lra. }
  assert (e1 = e2) as -> by lia.
  assert (Hp : (val (Zpos p1) e2 == val (Zpos p2) e2)%Q) by lra.
  apply val_eq_inv in Hp. congruence.
Qed.

(** A count divided by itself is one, in doubles as well. *)
Lemma div_self (N : Z) :
  1 <= N < 2 ^ 53 -> Double.div (num N) (num N) = num 1.
Proof.
  intros HN.
  destruct (num_rounds N HN) as [_ CN].
  destruct (num_rounds 1 ltac:(lia)) as [_ C1].
  assert (Npos : (0 < inject_Z N)%Q)
    by (change (inject_Z 0 < inject_Z N)%Q; rewrite <- Zlt_Qlt; lia).
  assert (E : (inject_Z N / inject_Z N == 1)%Q) by (field; lra).
  assert (Small : (pow2 (-1021) <= 1)%Q)
    by (change 1%Q with (pow2 0); apply pow2_le; lia).
  assert (Big : (1 < pow2 1023)%Q)
    by (change 1%Q with (pow2 0); apply pow2_lt; lia).
  assert (R : rounds 1 (Double.div (num N) (num N))).
  { apply (rounds_ext (inject_Z N / inject_Z N)); [exact E|].
    apply div_rounds; try assumption; lra. }
  apply (canon_inj _ _ 1 (inject_Z 1)); [|exact C1 | reflexivity].
  apply (rounds_grid _ _ 1 0 R).
  - symmetry. apply val_0.
  - change 1%Q with (pow2 0). apply pow2_lt. lia.
Qed.

(** X15.  The percentage reported for the last of the files is the double
    90 exactly, for every number of files that a double holds: the
    quotient [N / N] is 1, and [1 * 80] and [10 + 80] are exact. *)
Theorem last_file_is_reported_at_90 (files : list File) :
  files <> [] ->
  Z.of_nat (List.length files) < 2 ^ 53 ->
  file_percent (Z.of_nat (List.length files) - 1)
               (Z.of_nat (List.length files)) = num 90.
Proof.
  intros Hne Hcount.
  assert (Hpos : 1 <= Z.of_nat (List.length files))
    by (destruct files; [contradiction | cbn [List.length]; lia]).
  unfold file_percent.
  replace (Z.of_nat (List.length files) - 1 + 1)
    with (Z.of_nat (List.length files)) by lia.
  rewrite div_self by lia. reflexivity.
Qed.

Lemma last_file_is_reported_at_90_witness :
  file_percent 2 3 = num 90.
Proof.
  apply (last_file_is_reported_at_90 Sample.three_files);
    [discriminate | reflexivity].
Defined.

(** X16.  Called without a callback, or with an argument that is not a
    function, [uploadFiles] throws the [TypeError] of the first call, as
    it is: no request is sent, no file is read, nothing is logged, and the
    message does not carry the prefix ['Upload failed: ']. *)
Theorem missing_callback_is_not_caught (env : environment)
    (files : list File) (email : string) :
  let run := uploadFiles env files email not_a_function [] in
  fst run = Throw (Error "progressCallback is not a function") /\
  sent (snd run) = [] /\ reads (snd run) = [] /\
  filter is_console (snd run) = [].
Proof.
  cbv zeta.
  destruct (generateJobId_returns env []) as [jobId Hid].
  assert (Hrun : forall k : string -> M string,
             bind (generateJobId env)
               (fun j => bind (not_a_function (num 0) "Creating job..." None)
                              (fun _ => k j)) []
             = (Throw (Error "progressCallback is not a function"),
                [EvNow; EvProgress (num 0) "Creating job..." None])).
  { intros k. unfold bind at 1. rewrite Hid.
    unfold bind at 1, not_a_function. rewrite watched_run. reflexivity. }
  unfold uploadFiles. rewrite Hrun. repeat split.
Qed.


